(** * Crypto Price Tracker: the alert edge detector and the history buffer

    A shallow embedding of the two stateful parts of [crypto.py]:

    - the history update of the display loop (lines 188-199), which keeps
      the last [HISTORY_LEN] prices of every coin in
      [st.session_state.history];
    - the alert loop (lines 234-273), which compares the price of every
      coin with the bounds of its row of the editable threshold table and
      appends a message to [triggered_alerts] when a bound is crossed and
      the latch kept in [st.session_state.last_alert_state] is clear.

    Python values are modelled as the script meets them.  A price is a
    JSON number: an [int] or a [float] (IEEE binary64, here Rocq's
    primitive floats).  A cell of the threshold table is [None], a float
    (NaN included) or text, and [float(...)] of text either yields a float
    or raises [ValueError].  Dictionaries are finite maps, and an
    exception that leaves the script is an explicit outcome that keeps the
    session state reached so far.  *)

From Stdlib Require Import ZArith Floats Ascii String.
From stdpp Require Import gmap strings list.

Local Open Scope Z_scope.

(** ** Python numbers and their comparisons *)

Module PyNum.

(** A JSON number as [r.json()] delivers it. *)
Inductive num :=
| PInt (z : Z)
| PFloat (f : float).

(** The exact order between a Python [int] and a [float]: [None] when the
    float is NaN, as every comparison with NaN is false. *)
Definition int_cmp_float (z : Z) (f : float) : option comparison :=
  match Prim2SF f with
  | S754_nan => None
  | S754_infinity s => Some (if s then Gt else Lt)
  | S754_zero _ => Some (z ?= 0)
  | S754_finite s m e =>
      let v := if s then Z.neg m else Z.pos m in
      Some (if 0 <=? e then z ?= v * 2 ^ e else z * 2 ^ (- e) ?= v)
  end.

(** [price <= f] for a float [f]. *)
Definition py_le (price : num) (f : float) : bool :=
  match price with
  | PFloat x => PrimFloat.leb x f
  | PInt z =>
      match int_cmp_float z f with
      | Some Lt | Some Eq => true
      | _ => false
      end
  end.

(** [price >= f]. *)
Definition py_ge (price : num) (f : float) : bool :=
  match price with
  | PFloat x => PrimFloat.leb f x
  | PInt z =>
      match int_cmp_float z f with
      | Some Gt | Some Eq => true
      | _ => false
      end
  end.

(** [price > f]. *)
Definition py_gt (price : num) (f : float) : bool :=
  match price with
  | PFloat x => PrimFloat.ltb f x
  | PInt z =>
      match int_cmp_float z f with
      | Some Gt => true
      | _ => false
      end
  end.

(** [price < f]. *)
Definition py_lt (price : num) (f : float) : bool :=
  match price with
  | PFloat x => PrimFloat.ltb x f
  | PInt z =>
      match int_cmp_float z f with
      | Some Lt => true
      | _ => false
      end
  end.

End PyNum.
Export PyNum.

(** ** [float(text)]

    The grammar and the value of Python's [float] on an ASCII string:
    underscores between digits are removed, white space is stripped at
    both ends, and what remains is a sign followed by [inf], [infinity],
    [nan] (in any case) or by a decimal number with an optional exponent.
    The value is the binary64 number nearest to the decimal one (ties to
    even), an infinity when it is out of range.  [None] stands for
    [ValueError].  Characters outside ASCII, which Python first maps to
    ASCII digits and spaces where it can, are not part of the model. *)

Module PyFloat.

Definition code (a : ascii) : nat := nat_of_ascii a.

Definition is_space (a : ascii) : bool :=
  ((9 <=? code a) && (code a <=? 13) || (code a =? 32))%nat.

Definition is_digit (a : ascii) : bool :=
  ((48 <=? code a) && (code a <=? 57))%nat.

Definition is_underscore (a : ascii) : bool := (code a =? 95)%nat.

Definition lower_ascii (a : ascii) : ascii :=
  if ((65 <=? code a) && (code a <=? 90))%nat
  then ascii_of_nat (code a + 32) else a.

Definition digit_val (a : ascii) : Z := Z.of_nat (code a) - 48.

(** Underscores are allowed only between two digits. *)
Fixpoint drop_underscores (prev : option ascii) (s : list ascii)
  : option (list ascii) :=
  match s with
  | [] =>
      match prev with
      | Some p => if is_underscore p then None else Some []
      | None => Some []
      end
  | a :: s' =>
      if is_underscore a then
        match prev with
        | Some p =>
            if is_digit p then drop_underscores (Some a) s' else None
        | None => None
        end
      else
        match prev with
        | Some p =>
            if is_underscore p && negb (is_digit a) then None
            else cons a <$> drop_underscores (Some a) s'
        | None => cons a <$> drop_underscores (Some a) s'
        end
  end.

Fixpoint lstrip (s : list ascii) : list ascii :=
  match s with
  | a :: s' => if is_space a then lstrip s' else s
  | [] => []
  end.

Definition strip (s : list ascii) : list ascii :=
  rev (lstrip (rev (lstrip s))).

(** The longest prefix of digits, and the rest. *)
Fixpoint span_digits (s : list ascii) : list ascii * list ascii :=
  match s with
  | a :: s' =>
      if is_digit a
      then let '(ds, r) := span_digits s' in (a :: ds, r)
      else ([], s)
  | [] => ([], [])
  end.

Definition digits_val (ds : list ascii) : Z :=
  fold_left (fun acc a => 10 * acc + digit_val a) ds 0.

(** An optional sign: [true] for [-]. *)
Definition split_sign (s : list ascii) : bool * list ascii :=
  match s with
  | a :: s' =>
      if (code a =? 45)%nat then (true, s')
      else if (code a =? 43)%nat then (false, s')
      else (false, s)
  | [] => (false, [])
  end.

(** The binary64 number nearest to [(-1)^neg * m * 10^e]. *)
Definition decimal_to_float (neg : bool) (m e : Z) : float :=
  if m =? 0 then (if neg then (-0)%float else 0%float)
  else if 0 <=? e then
    SF2Prim (binary_normalize prec emax
               ((if neg then - m else m) * 10 ^ e) 0 false)
  else
    SF2Prim (SFdiv prec emax
               (S754_finite neg (Z.to_pos m) 0)
               (S754_finite false (Z.to_pos (10 ^ (- e))) 0)).

(** The exponent part: empty, or [e], an optional sign and digits. *)
Definition parse_exponent (s : list ascii) : option Z :=
  match s with
  | [] => Some 0
  | a :: s' =>
      if (code (lower_ascii a) =? 101)%nat then
        let '(neg, s'') := split_sign s' in
        let '(ds, r) := span_digits s'' in
        match ds, r with
        | _ :: _, [] => Some (if neg then - digits_val ds else digits_val ds)
        | _, _ => None
        end
      else None
  end.

Definition parse_number (neg : bool) (s : list ascii) : option float :=
  let '(ip, r) := span_digits s in
  let '(fp, r') :=
    match r with
    | a :: r1 => if (code a =? 46)%nat then span_digits r1 else ([], r)
    | [] => ([], [])
    end in
  match ip ++ fp with
  | [] => None
  | ds =>
      e ← parse_exponent r';
      Some (decimal_to_float neg (digits_val ds)
              (e - Z.of_nat (length fp)))
  end.

Definition parse_inf_or_nan (neg : bool) (s : list ascii) : option float :=
  let w := string_of_list_ascii (map lower_ascii s) in
  if (String.eqb w "inf" || String.eqb w "infinity")%string
  then Some (if neg then neg_infinity else infinity)
  else if String.eqb w "nan" then Some nan
  else None.

Definition float_of_string (s : string) : option float :=
  s1 ← drop_underscores None (list_ascii_of_string s);
  let '(neg, body) := split_sign (strip s1) in
  match parse_inf_or_nan neg body with
  | Some f => Some f
  | None => parse_number neg body
  end.

End PyFloat.

(** ** Exceptions *)

Inductive exn := ValueError | TypeError.

Inductive res (A : Type) :=
| Ok (a : A)
| Raise (e : exn).
Arguments Ok {A} a.
Arguments Raise {A} e.

#[global] Instance res_ret : MRet res := fun A a => Ok a.
#[global] Instance res_bind : MBind res := fun A B k r =>
  match r with
  | Ok a => k a
  | Raise e => Raise e
  end.

(** ** The threshold table *)

(** A cell of the [lower] or [upper] column. *)
Inductive cell :=
| CNone
| CFloat (f : float)
| CStr (s : string).

(** [float(v)]. *)
Definition py_float (v : cell) : res float :=
  match v with
  | CNone => Raise TypeError
  | CFloat f => Ok f
  | CStr s =>
      match PyFloat.float_of_string s with
      | Some f => Ok f
      | None => Raise ValueError
      end
  end.

(** A row of [st.session_state.thresholds]: coin | lower | upper. *)
Record row := Row { coin : string; lower : cell; upper : cell }.

(** [{row["coin"]: row for _, row in thresholds.iterrows()}]: of two rows
    for one coin the later one stays. *)
Definition th_map (thresholds : list row) : gmap string row :=
  foldl (fun m r => <[coin r := r]> m) ∅ thresholds.

(** ** Prices *)

(** [price_data.get(c, {}).get(vs_currency)] *)
Definition get_price (price_data : gmap string (gmap string num))
    (c vs_currency : string) : option num :=
  default ∅ (price_data !! c) !! vs_currency.

(** ** The history buffer (lines 188-199) *)

Definition HISTORY_LEN : nat := 300.
Arguments HISTORY_LEN : simpl never.

(** [l[-n:]] for a positive [n]. *)
Definition last_n {A} (n : nat) (l : list A) : list A :=
  drop (length l - n) l.

(** [st.session_state.history.get(c, [])] *)
Definition get_hist (history : gmap string (list num)) (c : string)
  : list num :=
  default [] (history !! c).

(** Lines 194-199 for the price of coin [c]. *)
Definition append_price (history : gmap string (list num)) (c : string)
    (price : option num) : gmap string (list num) :=
  let hist := get_hist history c in
  match price with
  | Some p =>
      let hist := hist ++ [p] in
      let hist :=
        if (HISTORY_LEN <? length hist)%nat
        then last_n HISTORY_LEN hist else hist in
      <[c := hist]> history
  | None => history
  end.

(** The history part of the loop [for c in coins] of lines 188-206. *)
Definition history_loop (price_data : gmap string (gmap string num))
    (vs_currency : string) (coins : list string)
    (history : gmap string (list num)) : gmap string (list num) :=
  foldl (fun h c => append_price h c (get_price price_data c vs_currency))
        history coins.

(** ** The alert detector (lines 234-273) *)

Inductive direction := Below | Above.

#[global] Instance direction_eq_dec : EqDecision direction.
Proof. solve_decision. Defined.

(** The fields of the alert message
    [f"{c} at {price} {vs_currency.upper()} is <= lower threshold {lower}"]
    (and [>= upper threshold {upper}]); how Python prints the numbers is
    left out. *)
Record msg := Msg {
  m_coin : string;
  m_price : num;
  m_currency : string;
  m_dir : direction;
  m_bound : cell
}.

Definition upper_ascii (a : ascii) : ascii :=
  if ((97 <=? nat_of_ascii a) && (nat_of_ascii a <=? 122))%nat
  then ascii_of_nat (nat_of_ascii a - 32) else a.

(** [s.upper()] on ASCII text. *)
Definition str_upper (s : string) : string :=
  string_of_list_ascii (map upper_ascii (list_ascii_of_string s)).

(** The latch of one coin: [{"above": bool, "below": bool}]. *)
Record edge := Edge { above : bool; below : bool }.

(** The default of [last_alert_state.get(c, ...)]. *)
Definition edge_init : edge := Edge false false.

Definition set_below (b : bool) (s : edge) : edge := Edge (above s) b.
Definition set_above (b : bool) (s : edge) : edge := Edge b (below s).

(** [(bound is not None) and (price <cmp> float(bound))] *)
Definition crossed (cmp : num -> float -> bool) (price : num) (bound : cell)
  : res bool :=
  match bound with
  | CNone => Ok false
  | _ => f ← py_float bound; Ok (cmp price f)
  end.

(** One [if ... elif ...] of lines 259-271: the events it appends and the
    latch it leaves. *)
Definition trigger (crossed_now latched : bool) (ev : string * msg)
  : list (string * msg) * bool :=
  if crossed_now && negb latched then ([ev], true)
  else if negb crossed_now then ([], false)
  else ([], latched).

(** Lines 249-271: the evaluation of coin [c] at a present price against
    its row [th], from the latch [last_state]. *)
Definition evaluate (c vs_currency : string) (price : num) (th : row)
    (last_state : edge) : res (list (string * msg) * edge) :=
  let lower := lower th in
  let upper := upper th in
  crossed_below ← crossed py_le price lower;
  crossed_above ← crossed py_ge price upper;
  let '(t1, b) :=
    trigger crossed_below (below last_state)
      (c, Msg c price (str_upper vs_currency) Below lower) in
  let last_state := set_below b last_state in
  let '(t2, a) :=
    trigger crossed_above (above last_state)
      (c, Msg c price (str_upper vs_currency) Above upper) in
  let last_state := set_above a last_state in
  Ok (t1 ++ t2, last_state).

(** How the alert loop ends: it runs through, or an exception leaves the
    script; [last_alert_state] lives in the session and keeps what was
    written before, [triggered_alerts] is lost with the run. *)
Inductive outcome :=
| Done (last_alert_state : gmap string edge)
       (triggered_alerts : list (string * msg))
| Raised (e : exn) (last_alert_state : gmap string edge).

(** The body of [for c in coins] (lines 240-273). *)
Definition alert_body (price_data : gmap string (gmap string num))
    (vs_currency : string) (th_map : gmap string row) (c : string)
    (last_alert_state : gmap string edge)
    (triggered_alerts : list (string * msg)) : outcome :=
  match get_price price_data c vs_currency with
  | None => Done last_alert_state triggered_alerts
  | Some price =>
      match th_map !! c with
      | None => Done last_alert_state triggered_alerts
      | Some th =>
          let last_state := default edge_init (last_alert_state !! c) in
          match evaluate c vs_currency price th last_state with
          | Ok (evs, last_state) =>
              Done (<[c := last_state]> last_alert_state)
                   (triggered_alerts ++ evs)
          | Raise e => Raised e last_alert_state
          end
      end
  end.

Fixpoint alert_loop (price_data : gmap string (gmap string num))
    (vs_currency : string) (th_map : gmap string row) (coins : list string)
    (last_alert_state : gmap string edge)
    (triggered_alerts : list (string * msg)) : outcome :=
  match coins with
  | [] => Done last_alert_state triggered_alerts
  | c :: coins =>
      match alert_body price_data vs_currency th_map c
              last_alert_state triggered_alerts with
      | Done las t => alert_loop price_data vs_currency th_map coins las t
      | Raised e las => Raised e las
      end
  end.

(** ** One run of the script *)

Record session := Session {
  history : gmap string (list num);
  last_alert_state : gmap string edge
}.

(** One cycle: the history update, then the alert loop from an empty
    [triggered_alerts], over the coins selected, the table as edited and
    the prices fetched. *)
Definition cycle (coins : list string) (vs_currency : string)
    (thresholds : list row) (price_data : gmap string (gmap string num))
    (s : session) : session * res (list (string * msg)) :=
  let h := history_loop price_data vs_currency coins (history s) in
  match alert_loop price_data vs_currency (th_map thresholds) coins
          (last_alert_state s) [] with
  | Done las t => (Session h las, Ok t)
  | Raised e las => (Session h las, Raise e)
  end.

(** ** One coin over several cycles *)

(** The number of events of direction [d]. *)
Definition count_dir (d : direction) (evs : list (string * msg)) : nat :=
  length (filter (fun ev => m_dir ev.2 = d) evs).

(** The evaluations of one coin against one row at the prices of
    successive cycles: the events of every cycle and the last latch.  A
    cycle without a price (line 242) evaluates nothing. *)
Fixpoint evaluate_seq (c vs_currency : string) (th : row)
    (last_state : edge) (prices : list (option num))
  : res (list (list (string * msg)) * edge) :=
  match prices with
  | [] => Ok ([], last_state)
  | None :: prices =>
      '(evss, s) ← evaluate_seq c vs_currency th last_state prices;
      Ok ([] :: evss, s)
  | Some price :: prices =>
      '(evs, s) ← evaluate c vs_currency price th last_state;
      '(evss, s') ← evaluate_seq c vs_currency th s prices;
      Ok (evs :: evss, s')
  end.

(** ** Vocabulary of the properties *)

(** A cell that [crossed] reads without an exception: [None], a float, or
    text that [float] converts. *)
Definition cell_ok (v : cell) : bool :=
  match v with
  | CNone => true
  | _ => match py_float v with Ok _ => true | Raise _ => false end
  end.

(** The value of [crossed] on such a cell. *)
Definition crossed_val (cmp : num -> float -> bool) (price : num)
    (bound : cell) : bool :=
  match bound with
  | CNone => false
  | _ => match py_float bound with Ok f => cmp price f | Raise _ => false end
  end.

(** The two sides of the detector, by direction. *)
Definition bound (d : direction) (th : row) : cell :=
  match d with Below => lower th | Above => upper th end.

Definition latch (d : direction) (s : edge) : bool :=
  match d with Below => below s | Above => above s end.

(** The price is at or past the bound: [price <= lower], [price >= upper]. *)
Definition past (d : direction) : num -> float -> bool :=
  match d with Below => py_le | Above => py_ge end.

(** The price is strictly back inside: [price > lower], [price < upper]. *)
Definition inside (d : direction) : num -> float -> bool :=
  match d with Below => py_gt | Above => py_lt end.

(** The number of events one [if ... elif ...] appends. *)
Definition fires (crossed_now latched : bool) : nat :=
  if crossed_now && negb latched then 1%nat else 0%nat.


(** The events of one direction over successive cycles, from the latch
    and from what [crossed] gives in every cycle ([None]: no price). *)
Fixpoint fires_seq (latched : bool) (cs : list (option bool)) : list nat :=
  match cs with
  | [] => []
  | None :: cs => 0%nat :: fires_seq latched cs
  | Some cr :: cs => fires cr latched :: fires_seq cr cs
  end.

(** The latch after these cycles. *)
Fixpoint latch_after (latched : bool) (cs : list (option bool)) : bool :=
  match cs with
  | [] => latched
  | None :: cs => latch_after latched cs
  | Some cr :: cs => latch_after cr cs
  end.

(** What [crossed] gives for direction [d] at the prices of the cycles. *)
Definition crossings (d : direction) (th : row) (prices : list (option num))
  : list (option bool) :=
  fmap (M := option) (fun p => crossed_val (past d) p (bound d th)) <$> prices.

(** Successive runs of the script, each with the table as edited and the
    prices fetched: the last session and what every run produced. *)
Fixpoint cycles (coins : list string) (vs_currency : string)
    (inputs : list (list row * gmap string (gmap string num)))
    (s : session) : session * list (res (list (string * msg))) :=
  match inputs with
  | [] => (s, [])
  | (thresholds, price_data) :: inputs =>
      let '(s1, out) := cycle coins vs_currency thresholds price_data s in
      let '(s2, outs) := cycles coins vs_currency inputs s1 in
      (s2, out :: outs)
  end.

(** The answer of the price source for one coin. *)
Definition quote (c vs_currency : string) (price : num)
  : gmap string (gmap string num) :=
  {[ c := {[ vs_currency := price ]} ]}.

(** The session of a fresh run: both dictionaries empty (lines 145-149). *)
Definition session_init : session := Session ∅ ∅.

(** The alerts that reach the log and the mail (lines 276-298): those of
    a run that went through; after an exception the script has stopped. *)
Definition emitted (out : res (list (string * msg))) : list (string * msg) :=
  match out with
  | Ok t => t
  | Raise _ => []
  end.

(** The alerts of coin [c] among [triggered_alerts]. *)
Definition alerts_of (c : string) (t : list (string * msg))
  : list (string * msg) :=
  filter (fun ev => ev.1 = c) t.

(** Two outcomes of the alert loop that end the same way and agree on
    coin [c]: on its latch and on its alerts. *)
Definition outcome_agree (c : string) (o1 o2 : outcome) : Prop :=
  match o1, o2 with
  | Done las1 t1, Done las2 t2 =>
      las1 !! c = las2 !! c /\ alerts_of c t1 = alerts_of c t2
  | Raised e1 las1, Raised e2 las2 => e1 = e2 /\ las1 !! c = las2 !! c
  | _, _ => False
  end.

(** Two sessions that agree on coin [c]. *)
Definition session_agree (c : string) (s1 s2 : session) : Prop :=
  history s1 !! c = history s2 !! c /\
  last_alert_state s1 !! c = last_alert_state s2 !! c.

(** A bound that is not there: [None], or NaN as a float or as text. *)
Definition no_bound (v : cell) : bool :=
  match v with
  | CNone => true
  | _ => match py_float v with Ok f => is_nan f | Raise _ => false end
  end.

(** A sequence of appends to the history, for any coins in any order. *)
Definition run_appends (history : gmap string (list num))
    (appends : list (string * option num)) : gmap string (list num) :=
  foldl (fun h a => append_price h a.1 a.2) history appends.

(** The present prices of coin [c] among them, in order. *)
Definition prices_of (c : string) (appends : list (string * option num))
  : list num :=
  omap (fun a => if decide (a.1 = c) then a.2 else None) appends.

(** The appends of the history loop in successive cycles. *)
Definition appends_of (coins : list string) (vs_currency : string)
    (price_datas : list (gmap string (gmap string num)))
  : list (string * option num) :=
  pd ← price_datas; (fun c => (c, get_price pd c vs_currency)) <$> coins.

(** The directions of a list of alerts, in order. *)
Definition directions (evs : list (string * msg)) : list direction :=
  (fun ev => m_dir ev.2) <$> evs.

(** The latch an evaluation of coin [c] leaves in a cycle with these
    prices and this table, when it completes. *)
Definition latch_of (price_data : gmap string (gmap string num))
    (vs_currency : string) (th_map : gmap string row) (c : string)
  : option edge :=
  price ← get_price price_data c vs_currency;
  th ← th_map !! c;
  Some (Edge (crossed_val py_ge price (upper th))
             (crossed_val py_le price (lower th))).

(** A row both of whose cells [crossed] reads without an exception. *)
Definition row_ok (r : row) : bool := cell_ok (lower r) && cell_ok (upper r).

(** ** The threshold table of a run (lines 151-178) *)

(** Lines 155-159, the table of a first run: one row without bounds for
    every coin selected. *)
Definition df_init (coins : list string) : list row :=
  (fun c => Row c CNone CNone) <$> coins.

(** Lines 163-169, a later run: a row without bounds is appended for every
    coin selected whose name was not in the table when the loop began. *)
Definition add_missing (coins : list string) (thresholds : list row)
  : list row :=
  let existing : gset string := list_to_set (coin <$> thresholds) in
  foldl (fun th c =>
           if decide (c ∈ existing) then th else th ++ [Row c CNone CNone])
        thresholds coins.

(** Lines 153-169: the table handed to the editor; [None] when the session
    has no key ["thresholds"] yet. *)
Definition seed_thresholds (coins : list string)
    (stored : option (list row)) : list row :=
  match stored with
  | None => df_init coins
  | Some thresholds => add_missing coins thresholds
  end.

(** ** The price source (lines 31-49) *)

(** [fetch_prices]: no request for an empty list; otherwise the answer of
    the request [get] for the ids joined by commas, and the empty mapping
    when the request, its status check or the decoding raises ([None]).
    The cache of line 31 hands out an answer of the last ten seconds
    again; [get] stands for the answer the call ends up with. *)
Definition fetch_prices
    (get : string -> string -> option (gmap string (gmap string num)))
    (coin_ids : list string) (vs_currency : string)
  : gmap string (gmap string num) :=
  match coin_ids with
  | [] => ∅
  | _ =>
      match get (String.concat "," coin_ids) vs_currency with
      | Some json => json
      | None => ∅
      end
  end.

(** What an alert says, for coin [c] at [price] against the row [th]. *)
Definition alert_of (c vs_currency : string) (price : num) (th : row)
    (d : direction) : string * msg :=
  (c, Msg c price (str_upper vs_currency) d (bound d th)).

(** ** Mail settings (lines 76-78, 104-118) *)

(** [get_env_or_default]: the value of the variable, also when it is the
    empty string, and [default] only when there is no such variable. *)
Definition get_env_or_default (environ : gmap string string)
    (key default : string) : string :=
  match environ !! key with
  | Some val => val
  | None => default
  end.

Record smtp_config := Smtp {
  smtp_server : string;
  smtp_port : Z;
  email_sender : string;
  email_password : string;
  email_receiver : string
}.

(** Lines 107-111, the settings read from the environment.  [port] stands
    for the value of [int(get_env_or_default("SMTP_PORT", "465") or 465)]
    in a run that gets past that line. *)
Definition env_config (environ : gmap string string) (port : Z)
  : smtp_config :=
  Smtp (get_env_or_default environ "SMTP_SERVER" "smtp.gmail.com")
       port
       (get_env_or_default environ "EMAIL_SENDER" "")
       (get_env_or_default environ "EMAIL_PASSWORD" "")
       (get_env_or_default environ "EMAIL_RECEIVER" "").

(** Python's truth value of a string. *)
Definition str_truth (s : string) : bool :=
  match s with
  | EmptyString => false
  | _ => true
  end.

(** [all([smtp_server, smtp_port, email_sender, email_password,
    email_receiver])] (line 283). *)
Definition all_configured (cfg : smtp_config) : bool :=
  str_truth (smtp_server cfg) && negb (smtp_port cfg =? 0) &&
  str_truth (email_sender cfg) && str_truth (email_password cfg) &&
  str_truth (email_receiver cfg).

(** ** The notifier (lines 52-73, 276-298) and the log viewer (300-312) *)

(** A line [f"[{ts}] {message}\n"] of [alerts.log]. *)
Record log_line := LogLine { l_ts : string; l_msg : msg }.

(** A mail handed to [send_email_alert]. *)
Record mail := Mail {
  mail_config : smtp_config;
  mail_subject : string;
  mail_body : msg
}.

(** What the notifier shows: [st.warning] with the messages, then per
    alert [st.toast], [st.error] or [st.info]. *)
Inductive notice :=
| Warning (messages : list msg)
| Toast (c : string)
| Error (c : string)
| Info.

(** What the notifier writes to: the log file ([None]: no such file), the
    mails that went out, what it has shown. *)
Record world := World {
  log_file : option (list log_line);
  outbox : list mail;
  notices : list notice
}.

(** The lines of the log, none when there is no file. *)
Definition log_lines (w : world) : list log_line := default [] (log_file w).

Section Notifier.

(** The clock read by [log_alert] and the fate of a mail in
    [send_email_alert] ([false]: it raises), each as it may depend on all
    that has happened so far. *)
Variable now : world -> string.
Variable deliver : world -> mail -> bool.

(** [log_alert]: one more line at the end of the file, which is created
    when it is not there.  Opening and writing the file are taken to
    succeed. *)
Definition log_alert (message : msg) (w : world) : world :=
  World (Some (log_lines w ++ [LogLine (now w) message]))
        (outbox w) (notices w).

(** The body of the loop of lines 280-298. *)
Definition notify_one (cfg : smtp_config) (w : world) (alert : string * msg)
  : world :=
  let '(c, message) := alert in
  let w := log_alert message w in
  if all_configured cfg then
    let m := Mail cfg ("Crypto Alert: " ++ c) message in
    if deliver w m
    then World (log_file w) (outbox w ++ [m]) (notices w ++ [Toast c])
    else World (log_file w) (outbox w) (notices w ++ [Error c])
  else World (log_file w) (outbox w) (notices w ++ [Info]).

(** Lines 276-298. *)
Definition notify (cfg : smtp_config) (triggered_alerts : list (string * msg))
    (w : world) : world :=
  match triggered_alerts with
  | [] => w
  | _ =>
      foldl (notify_one cfg)
        (World (log_file w) (outbox w)
               (notices w ++ [Warning (snd <$> triggered_alerts)]))
        triggered_alerts
  end.

End Notifier.

(** What the log viewer shows. *)
Inductive view :=
| Caption
| Code (lines : list log_line)
| CodeEmpty.

(** Lines 303-312: the last 50 lines of the file, ["<empty>"] for a file
    without lines, a caption when there is no file.  Reading the file is
    taken to succeed. *)
Definition log_view (log_file : option (list log_line)) : view :=
  match log_file with
  | None => Caption
  | Some lines =>
      match last_n 50 lines with
      | [] => CodeEmpty
      | tail => Code tail
      end
  end.

(** ** The trend charts (lines 222-231) *)

(** The charts drawn: for every coin selected with at least two samples,
    the samples plotted. *)
Definition charts (coins : list string) (history : gmap string (list num))
  : list (string * list num) :=
  omap (fun c =>
          let hist := get_hist history c in
          if (length hist <? 2)%nat then None else Some (c, hist))
       coins.

(** * Properties *)

(** ** [float(text)] on an example *)

Example float_of_string_100 :
  PyFloat.float_of_string "100" = Some 100%float.
Proof. vm_compute. reflexivity. Qed.

Example float_of_string_accepts :
  PyFloat.float_of_string " -12.5e-1 " = Some (-1.25)%float /\
  PyFloat.float_of_string "1_000.5" = Some 1000.5%float /\
  PyFloat.float_of_string "1e400" = Some infinity /\
  PyFloat.float_of_string "-Infinity" = Some neg_infinity /\
  (is_nan <$> PyFloat.float_of_string "NaN") = Some true.
Proof. repeat split; vm_compute; reflexivity. Qed.

Example float_of_string_rejects :
  Forall (fun s => PyFloat.float_of_string s = None)
    ["abc"; " "; "."; "1e"; "1__0"; "_1"; "1_"; "0x10"; "1 2"; "--1";
     "1,5"; "infin"]%string /\
  PyFloat.float_of_string EmptyString = None.
Proof. split; [repeat constructor|reflexivity]. Qed.

(** ** Comparisons *)

Section Comparisons.

Lemma SFcompare_antisym (a b : spec_float) :
  SFcompare b a = CompOpp <$> SFcompare a b.
Proof.
  destruct a as [sa|sa| |sa ma ea], b as [sb|sb| |sb mb eb]; simpl;
    try reflexivity; try (destruct sa; reflexivity);
    try (destruct sb; reflexivity);
    try (destruct sa, sb; reflexivity).
  assert (Hm : PosDef.Pos.compare_cont Eq mb ma
               = CompOpp (PosDef.Pos.compare_cont Eq ma mb))
    by (symmetry; exact (Pos.compare_cont_antisym ma mb Eq)).
  destruct sa, sb; simpl; try reflexivity;
    rewrite (Z.compare_antisym ea eb); destruct (ea ?= eb); simpl;
    rewrite ?Hm, ?CompOpp_involutive; reflexivity.
Qed.

Lemma float_ltb_not_leb (x y : float) :
  PrimFloat.ltb x y = true -> PrimFloat.leb y x = false.
Proof.
  rewrite ltb_spec, leb_spec. unfold SFltb, SFleb.
  rewrite (SFcompare_antisym (Prim2SF x) (Prim2SF y)).
  destruct (SFcompare (Prim2SF x) (Prim2SF y)) as [[]|]; simpl; congruence.
Qed.

(** [price > f] excludes [price <= f], also at NaN. *)
Lemma py_gt_not_le (price : num) (f : float) :
  py_gt price f = true -> py_le price f = false.
Proof.
  destruct price as [z|x]; simpl.
  - destruct (int_cmp_float z f) as [[]|]; congruence.
  - apply float_ltb_not_leb.
Qed.

(** [price < f] excludes [price >= f]. *)
Lemma py_lt_not_ge (price : num) (f : float) :
  py_lt price f = true -> py_ge price f = false.
Proof.
  destruct price as [z|x]; simpl.
  - destruct (int_cmp_float z f) as [[]|]; congruence.
  - apply float_ltb_not_leb.
Qed.

End Comparisons.

(** ** One evaluation *)

Lemma inside_not_past d price f :
  inside d price f = true -> past d price f = false.
Proof. destruct d; [apply py_gt_not_le | apply py_lt_not_ge]. Qed.

Lemma crossed_ok cmp price v :
  cell_ok v = true -> crossed cmp price v = Ok (crossed_val cmp price v).
Proof.
  unfold cell_ok, crossed, crossed_val.
  destruct v as [|f|s]; try reflexivity; simpl;
    destruct (PyFloat.float_of_string s); simpl; congruence.
Qed.

Lemma crossed_raises cmp price v :
  cell_ok v = false -> crossed cmp price v = Raise ValueError.
Proof.
  unfold cell_ok, crossed.
  destruct v as [|f|s]; simpl; try discriminate.
  destruct (PyFloat.float_of_string s); simpl; congruence.
Qed.

Lemma crossed_val_float cmp price v f :
  py_float v = Ok f -> crossed_val cmp price v = cmp price f.
Proof.
  unfold crossed_val. intros H. rewrite H.
  destruct v; [discriminate | reflexivity | reflexivity].
Qed.

(** What an evaluation returns when both cells convert. *)
Lemma evaluate_ok c vs price th ls :
  cell_ok (lower th) = true -> cell_ok (upper th) = true ->
  let cb := crossed_val py_le price (lower th) in
  let ca := crossed_val py_ge price (upper th) in
  evaluate c vs price th ls =
    Ok ((if cb && negb (below ls)
         then [(c, Msg c price (str_upper vs) Below (lower th))] else []) ++
        (if ca && negb (above ls)
         then [(c, Msg c price (str_upper vs) Above (upper th))] else []),
        Edge ca cb).
Proof.
  intros Hl Hu cb ca. unfold evaluate.
  rewrite (crossed_ok _ _ _ Hl), (crossed_ok _ _ _ Hu). simpl.
  fold cb ca. destruct cb, ca, ls as [[] []]; reflexivity.
Qed.

(** An evaluation raises exactly when a cell does not convert. *)
Lemma evaluate_raises c vs price th ls :
  cell_ok (lower th) && cell_ok (upper th) = false ->
  evaluate c vs price th ls = Raise ValueError.
Proof.
  intros H. unfold evaluate.
  destruct (cell_ok (lower th)) eqn:Hl.
  - rewrite (crossed_ok _ _ _ Hl). simpl in *.
    rewrite (crossed_raises _ _ _ H). reflexivity.
  - rewrite (crossed_raises _ _ _ Hl). reflexivity.
Qed.

Lemma count_dir_app d xs ys :
  count_dir d (xs ++ ys) = (count_dir d xs + count_dir d ys)%nat.
Proof. unfold count_dir. rewrite filter_app, length_app. reflexivity. Qed.

(** The events of one direction and the latch after an evaluation. *)
Lemma evaluate_dir d c vs price th ls :
  cell_ok (lower th) = true -> cell_ok (upper th) = true ->
  exists evs ls',
    evaluate c vs price th ls = Ok (evs, ls') /\
    count_dir d evs =
      fires (crossed_val (past d) price (bound d th)) (latch d ls) /\
    latch d ls' = crossed_val (past d) price (bound d th).
Proof.
  intros Hl Hu. eexists _, _. split; [apply evaluate_ok; assumption|].
  rewrite count_dir_app. unfold fires.
  destruct d; simpl;
    destruct (crossed_val py_le price (lower th)),
             (crossed_val py_ge price (upper th)),
             ls as [[] []]; split; reflexivity.
Qed.

(** ** Successive cycles of one coin *)

Lemma fires_seq_app la xs ys :
  fires_seq la (xs ++ ys) = fires_seq la xs ++ fires_seq (latch_after la xs) ys.
Proof.
  revert la. induction xs as [|[cr|] xs IH]; intros la; simpl;
    [reflexivity | f_equal; apply IH | f_equal; apply IH].
Qed.

Lemma latch_after_app la xs ys :
  latch_after la (xs ++ ys) = latch_after (latch_after la xs) ys.
Proof.
  revert la. induction xs as [|[cr|] xs IH]; intros la; simpl; auto.
Qed.

Lemma crossings_app d th xs ys :
  crossings d th (xs ++ ys) = crossings d th xs ++ crossings d th ys.
Proof. unfold crossings. apply fmap_app. Qed.

Lemma crossings_some d th p prices :
  crossings d th (Some p :: prices) =
    Some (crossed_val (past d) p (bound d th)) :: crossings d th prices.
Proof. reflexivity. Qed.

Lemma crossings_none d th prices :
  crossings d th (None :: prices) = None :: crossings d th prices.
Proof. reflexivity. Qed.

(** While the price stays past the bound, a set latch stays set and
    nothing fires. *)
Lemma fires_seq_held d th f ps :
  py_float (bound d th) = Ok f ->
  Forall (fun p => past d p f = true) ps ->
  fires_seq true (crossings d th (Some <$> ps)) = replicate (length ps) 0%nat /\
  latch_after true (crossings d th (Some <$> ps)) = true.
Proof.
  intros Hf. induction 1 as [|p ps Hp _ [IH1 IH2]]; [split; reflexivity|].
  rewrite fmap_cons, crossings_some, (crossed_val_float _ _ _ _ Hf), Hp.
  simpl. rewrite IH1, IH2. split; reflexivity.
Qed.

(** While the price stays strictly inside, nothing fires and the latch is
    clear after the first such cycle. *)
Lemma fires_seq_inside d th f la ps :
  py_float (bound d th) = Ok f ->
  Forall (fun p => inside d p f = true) ps ->
  fires_seq la (crossings d th (Some <$> ps)) = replicate (length ps) 0%nat /\
  latch_after la (crossings d th (Some <$> ps)) =
    match ps with [] => la | _ => false end.
Proof.
  intros Hf H. revert la.
  induction H as [|p ps Hp Hps IH]; intros la; [split; reflexivity|].
  rewrite fmap_cons, crossings_some, (crossed_val_float _ _ _ _ Hf),
    (inside_not_past _ _ _ Hp).
  destruct (IH false) as [IH1 IH2]. simpl. rewrite IH1, IH2.
  split; [reflexivity | destruct ps; reflexivity].
Qed.

(** The events of one direction and the latch over any cycles: the
    detector is the two-state machine [fires_seq]. *)
Lemma evaluate_seq_dir d c vs th ls prices :
  cell_ok (lower th) = true -> cell_ok (upper th) = true ->
  exists evss ls',
    evaluate_seq c vs th ls prices = Ok (evss, ls') /\
    count_dir d <$> evss = fires_seq (latch d ls) (crossings d th prices) /\
    latch d ls' = latch_after (latch d ls) (crossings d th prices).
Proof.
  intros Hl Hu. revert ls.
  induction prices as [|[p|] prices IH]; intros ls.
  - eexists _, _. repeat split.
  - destruct (evaluate_dir d c vs p th ls Hl Hu) as (evs & s & He & Hc & Hs).
    destruct (IH s) as (evss & s' & He' & Hc' & Hs').
    rewrite crossings_some. cbn [evaluate_seq]. rewrite He. cbn.
    rewrite He'. cbn [mbind res_bind].
    eexists _, _. split; [reflexivity|].
    rewrite fmap_cons. cbn [fires_seq latch_after].
    rewrite Hc, Hc', Hs', Hs. split; reflexivity.
  - destruct (IH ls) as (evss & s' & He' & Hc' & Hs').
    rewrite crossings_none. cbn [evaluate_seq]. rewrite He'.
    cbn [mbind res_bind].
    eexists _, _. split; [reflexivity|].
    rewrite fmap_cons. cbn [fires_seq latch_after].
    rewrite Hc', Hs'. split; reflexivity.
Qed.

(** The pattern of an edge-triggered alarm: one event when the bound is
    crossed, none while the price stays past it or back inside it, one
    more when it is crossed again. *)
Lemma fires_seq_edge d th f p ps q qs r :
  py_float (bound d th) = Ok f ->
  Forall (fun x => past d x f = true) (p :: ps) ->
  Forall (fun x => inside d x f = true) (q :: qs) ->
  past d r f = true ->
  fires_seq false (crossings d th (Some <$> (p :: ps) ++ (q :: qs) ++ [r])) =
    [1%nat] ++ replicate (length ps) 0%nat ++
    replicate (length (q :: qs)) 0%nat ++ [1%nat] /\
  latch_after false (crossings d th (Some <$> (p :: ps) ++ (q :: qs) ++ [r]))
    = true.
Proof.
  intros Hf Hp Hq Hr.
  rewrite !fmap_app, !crossings_app, !fires_seq_app, !latch_after_app.
  inversion_clear Hp as [|? ? Hp1 Hps].
  destruct (fires_seq_held d th f ps Hf Hps) as [H1 H2].
  destruct (fires_seq_inside d th f true (q :: qs) Hf Hq) as [H3 H4].
  assert (Hfirst : crossings d th (Some <$> [p]) = [Some true]).
  { rewrite fmap_cons, crossings_some, (crossed_val_float _ _ _ _ Hf), Hp1.
    reflexivity. }
  assert (Hlast : crossings d th (Some <$> [r]) = [Some true]).
  { rewrite fmap_cons, crossings_some, (crossed_val_float _ _ _ _ Hf), Hr.
    reflexivity. }
  change (Some <$> p :: ps) with ((Some <$> [p]) ++ (Some <$> ps)).
  rewrite crossings_app, fires_seq_app, latch_after_app, Hfirst.
  cbn [latch_after]. rewrite H1, H2, H3, H4, Hlast.
  split; reflexivity.
Qed.

(** C1. Edge-triggered alerting, for the lower bound ([d = Below], events
    "below") and for the upper bound ([d = Above], events "above") alike.
    Take a row whose bound of direction [d] converts to the float [f], and
    a latch that is clear.  Over cycles in which the price is present and
    stays at or past the bound ([p :: ps]), then strictly back inside it
    ([q :: qs]), then past it again ([r]), the evaluations all complete,
    and the events of direction [d] are: exactly one in the first cycle,
    none in the cycles that follow it past the bound, none while the price
    is inside, and exactly one when the bound is crossed again. *)
Theorem edge_triggered_alerts (d : direction) (c vs : string) (th : row)
    (ls : edge) (f : float) (p : num) (ps : list num) (q : num)
    (qs : list num) (r : num) :
  cell_ok (lower th) = true -> cell_ok (upper th) = true ->
  py_float (bound d th) = Ok f ->
  latch d ls = false ->
  Forall (fun x => past d x f = true) (p :: ps) ->
  Forall (fun x => inside d x f = true) (q :: qs) ->
  past d r f = true ->
  exists evss ls',
    evaluate_seq c vs th ls (Some <$> (p :: ps) ++ (q :: qs) ++ [r])
      = Ok (evss, ls') /\
    count_dir d <$> evss =
      [1%nat] ++ replicate (length ps) 0%nat ++
      replicate (length (q :: qs)) 0%nat ++ [1%nat] /\
    latch d ls' = true.
Proof.
  intros Hl Hu Hf Hla Hp Hq Hr.
  destruct (evaluate_seq_dir d c vs th ls
              (Some <$> (p :: ps) ++ (q :: qs) ++ [r]) Hl Hu)
    as (evss & ls' & He & Hc & Hs).
  exists evss, ls'. split; [exact He|].
  rewrite Hc, Hs, Hla. exact (fires_seq_edge d th f p ps q qs r Hf Hp Hq Hr).
Qed.

(** C1 at a concrete run: bound 100, prices 100, 95, 101, 99. *)
Lemma edge_triggered_alerts_witness :
  exists evss ls',
    evaluate_seq "bitcoin" "usd" (Row "bitcoin" (CFloat 100) CNone) edge_init
      (Some <$> [PFloat 100; PFloat 95] ++ [PFloat 101] ++ [PInt 99])
      = Ok (evss, ls') /\
    count_dir Below <$> evss =
      [1%nat] ++ replicate 1 0%nat ++ replicate 1 0%nat ++ [1%nat] /\
    latch Below ls' = true.
Proof.
  apply (edge_triggered_alerts Below "bitcoin" "usd"
           (Row "bitcoin" (CFloat 100) CNone) edge_init 100%float
           (PFloat 100) [PFloat 95] (PFloat 101) [] (PInt 99));
    try reflexivity; repeat constructor.
Defined.

(** ** The latch after an evaluation *)

Lemma crossed_val_true cmp price v :
  crossed_val cmp price v = true <->
  exists f, v <> CNone /\ py_float v = Ok f /\ cmp price f = true.
Proof.
  unfold crossed_val. split.
  - destruct v as [|f|s]; [discriminate | |].
    + intros H. exists f. repeat split; [discriminate | exact H].
    + destruct (py_float (CStr s)) as [f|e] eqn:Hf; [|discriminate].
      intros H. exists f. repeat split; [discriminate | exact H].
  - intros (f & Hn & Hf & Hc). rewrite Hf.
    destruct v; [congruence | exact Hc | exact Hc].
Qed.

(** The body of the alert loop at a present price and a present row. *)
Lemma alert_body_evaluate pd vs tm c las t price th :
  get_price pd c vs = Some price -> tm !! c = Some th ->
  alert_body pd vs tm c las t =
    match evaluate c vs price th (default edge_init (las !! c)) with
    | Ok (evs, ls') => Done (<[c := ls']> las) (t ++ evs)
    | Raise e => Raised e las
    end.
Proof. intros Hp Ht. unfold alert_body. rewrite Hp, Ht. reflexivity. Qed.

Lemma evaluate_total c vs price th ls :
  (exists evs ls', evaluate c vs price th ls = Ok (evs, ls') /\
     cell_ok (lower th) = true /\ cell_ok (upper th) = true /\
     ls' = Edge (crossed_val py_ge price (upper th))
                (crossed_val py_le price (lower th))) \/
  (evaluate c vs price th ls = Raise ValueError /\
     cell_ok (lower th) && cell_ok (upper th) = false).
Proof.
  destruct (cell_ok (lower th)) eqn:Hl, (cell_ok (upper th)) eqn:Hu.
  1: left; eexists _, _; split;
       [apply evaluate_ok; assumption | repeat split].
  all: right; split; [apply evaluate_raises; rewrite Hl, Hu|]; reflexivity.
Qed.

(** C2. The edge-state invariant.  When coin [c] has a price and a row in
    a cycle, every evaluation that completes stores for [c] a latch whose
    [below] is true exactly when [lower] is not [None] and the price just
    seen satisfies [price <= float(lower)], and whose [above] is true
    exactly when [upper] is not [None] and [price >= float(upper)]; and
    the evaluation does complete when both cells are [None], floats or
    text that [float] converts. *)
Theorem edge_state_invariant (pd : gmap string (gmap string num))
    (vs : string) (tm : gmap string row) (c : string)
    (las : gmap string edge) (t : list (string * msg))
    (price : num) (th : row) :
  get_price pd c vs = Some price -> tm !! c = Some th ->
  (forall las' t', alert_body pd vs tm c las t = Done las' t' ->
     exists ls', las' !! c = Some ls' /\
       (below ls' = true <->
          exists l, lower th <> CNone /\ py_float (lower th) = Ok l /\
                    py_le price l = true) /\
       (above ls' = true <->
          exists u, upper th <> CNone /\ py_float (upper th) = Ok u /\
                    py_ge price u = true)) /\
  (cell_ok (lower th) = true -> cell_ok (upper th) = true ->
     exists las' t', alert_body pd vs tm c las t = Done las' t').
Proof.
  intros Hp Ht. rewrite (alert_body_evaluate _ _ _ _ _ _ _ _ Hp Ht).
  destruct (evaluate_total c vs price th (default edge_init (las !! c)))
    as [(evs & ls' & He & Hl & Hu & Hs) | [He Hbad]]; rewrite He.
  - split; [|intros _ _; eexists _, _; reflexivity].
    intros las' t' [= <- <-]. exists ls'.
    split; [apply lookup_insert_eq|]. subst ls'. simpl.
    split; apply crossed_val_true.
  - split; [discriminate|]. intros Hl Hu. rewrite Hl, Hu in Hbad.
    discriminate.
Qed.

(** C2 at a concrete cycle: price 95 against the bounds 100 and 200. *)
Lemma edge_state_invariant_witness :
  (forall las' t',
     alert_body (quote "bitcoin" "usd" (PFloat 95)) "usd"
       (th_map [Row "bitcoin" (CFloat 100) (CStr "200")]) "bitcoin" ∅ []
       = Done las' t' ->
     exists ls', las' !! "bitcoin" = Some ls' /\
       (below ls' = true <->
          exists l, CFloat 100 <> CNone /\ py_float (CFloat 100) = Ok l /\
                    py_le (PFloat 95) l = true) /\
       (above ls' = true <->
          exists u, CStr "200" <> CNone /\ py_float (CStr "200") = Ok u /\
                    py_ge (PFloat 95) u = true)) /\
  (cell_ok (CFloat 100) = true -> cell_ok (CStr "200") = true ->
     exists las' t',
       alert_body (quote "bitcoin" "usd" (PFloat 95)) "usd"
         (th_map [Row "bitcoin" (CFloat 100) (CStr "200")]) "bitcoin" ∅ []
         = Done las' t').
Proof.
  apply (edge_state_invariant (quote "bitcoin" "usd" (PFloat 95)) "usd"
           (th_map [Row "bitcoin" (CFloat 100) (CStr "200")]) "bitcoin"
           ∅ [] (PFloat 95) (Row "bitcoin" (CFloat 100) (CStr "200")));
    reflexivity.
Defined.

(** ** Coins do not interfere *)

Lemma evaluate_coin c vs price th ls evs ls' :
  evaluate c vs price th ls = Ok (evs, ls') -> Forall (fun ev => ev.1 = c) evs.
Proof.
  destruct (evaluate_total c vs price th ls)
    as [(evs0 & ls0 & He & Hl & Hu & _) | [He _]]; [|congruence].
  rewrite (evaluate_ok _ _ _ _ _ Hl Hu). intros [= <- _].
  destruct (crossed_val py_le price (lower th) && negb (below ls)),
           (crossed_val py_ge price (upper th) && negb (above ls));
    repeat constructor.
Qed.

Lemma alerts_of_app c xs ys :
  alerts_of c (xs ++ ys) = alerts_of c xs ++ alerts_of c ys.
Proof. apply filter_app. Qed.

Lemma alerts_of_other c c' evs :
  c' <> c -> Forall (fun ev => ev.1 = c') evs -> alerts_of c evs = [].
Proof.
  intros Hne. induction 1 as [|ev evs Hev _ IH]; [reflexivity|].
  unfold alerts_of. rewrite filter_cons_False; [exact IH | congruence].
Qed.

Lemma alerts_of_same c evs :
  Forall (fun ev => ev.1 = c) evs -> alerts_of c evs = evs.
Proof.
  induction 1 as [|ev evs Hev _ IH]; [reflexivity|].
  unfold alerts_of in *. rewrite filter_cons_True by exact Hev.
  f_equal. exact IH.
Qed.

Lemma append_price_other h c c' p :
  c' <> c -> append_price h c' p !! c = h !! c.
Proof.
  intros Hne. unfold append_price. destruct p; [|reflexivity].
  apply lookup_insert_ne. exact Hne.
Qed.

Lemma alert_body_absent pd vs tm c las t :
  get_price pd c vs = None -> alert_body pd vs tm c las t = Done las t.
Proof. intros H. unfold alert_body. rewrite H. reflexivity. Qed.

(** The body for another coin leaves the latch and the alerts of [c]. *)
Lemma alert_body_other pd vs tm c c' las t :
  c' <> c ->
  match alert_body pd vs tm c' las t with
  | Done las' t' => las' !! c = las !! c /\ alerts_of c t' = alerts_of c t
  | Raised _ las' => las' = las
  end.
Proof.
  intros Hne. unfold alert_body.
  destruct (get_price pd c' vs) as [price|]; [|split; reflexivity].
  destruct (tm !! c') as [th|]; [|split; reflexivity].
  destruct (evaluate c' vs price th (default edge_init (las !! c')))
    as [[evs ls']|e] eqn:He; [|reflexivity].
  split; [apply lookup_insert_ne; exact Hne|].
  rewrite alerts_of_app, (alerts_of_other c c' evs Hne (evaluate_coin _ _ _ _ _ _ _ He)).
  apply app_nil_r.
Qed.

(** A coin without a price keeps its latch and gets no alert, whatever
    the loop does for the other coins. *)
Lemma alert_loop_absent pd vs tm c coins las t :
  get_price pd c vs = None ->
  match alert_loop pd vs tm coins las t with
  | Done las' t' => las' !! c = las !! c /\ alerts_of c t' = alerts_of c t
  | Raised _ las' => las' !! c = las !! c
  end.
Proof.
  intros Hp. revert las t.
  induction coins as [|c' coins IH]; intros las t; simpl; [split; reflexivity|].
  destruct (decide (c' = c)) as [->|Hne].
  - rewrite (alert_body_absent _ _ _ _ _ _ Hp). apply IH.
  - pose proof (alert_body_other pd vs tm c c' las t Hne) as Hb.
    destruct (alert_body pd vs tm c' las t) as [las1 t1|e las1].
    + destruct Hb as [Hl Ht]. specialize (IH las1 t1).
      destruct (alert_loop pd vs tm coins las1 t1) as [las2 t2|e las2].
      * destruct IH as [IHl IHt]. split; congruence.
      * congruence.
    + subst las1. reflexivity.
Qed.

Lemma history_loop_absent pd vs c coins h :
  get_price pd c vs = None -> history_loop pd vs coins h !! c = h !! c.
Proof.
  intros Hp. unfold history_loop. revert h.
  induction coins as [|c' coins IH]; intros h; simpl; [reflexivity|].
  rewrite IH. destruct (decide (c' = c)) as [->|Hne].
  - rewrite Hp. reflexivity.
  - apply append_price_other. exact Hne.
Qed.

(** The body keeps two runs in agreement on coin [c]. *)
Lemma alert_body_agree pd vs tm c c' las1 t1 las2 t2 :
  las1 !! c = las2 !! c -> alerts_of c t1 = alerts_of c t2 ->
  outcome_agree c (alert_body pd vs tm c' las1 t1)
                  (alert_body pd vs tm c' las2 t2).
Proof.
  intros Hl Ht. unfold alert_body.
  destruct (get_price pd c' vs) as [price|]; [|split; assumption].
  destruct (tm !! c') as [th|]; [|split; assumption].
  destruct (decide (c' = c)) as [->|Hne].
  - rewrite Hl.
    destruct (evaluate c vs price th (default edge_init (las2 !! c)))
      as [[evs ls']|e]; simpl; [|split; [reflexivity | exact Hl]].
    split; [rewrite !lookup_insert_eq; reflexivity|].
    rewrite !alerts_of_app, Ht. reflexivity.
  - destruct (evaluate_total c' vs price th (default edge_init (las1 !! c')))
      as [(ev1 & s1 & He1 & Hlo & Hup & _) | [He1 Hbad]];
    destruct (evaluate_total c' vs price th (default edge_init (las2 !! c')))
      as [(ev2 & s2 & He2 & Hlo' & Hup' & _) | [He2 Hbad']];
    rewrite He1, He2; simpl.
    + split; [rewrite !lookup_insert_ne by exact Hne; exact Hl|].
      rewrite !alerts_of_app,
        (alerts_of_other c c' ev1 Hne (evaluate_coin _ _ _ _ _ _ _ He1)),
        (alerts_of_other c c' ev2 Hne (evaluate_coin _ _ _ _ _ _ _ He2)),
        !app_nil_r.
      exact Ht.
    + rewrite Hlo, Hup in Hbad'. discriminate.
    + rewrite Hlo', Hup' in Hbad. discriminate.
    + split; [reflexivity | exact Hl].
Qed.

Lemma alert_loop_agree pd vs tm c coins las1 t1 las2 t2 :
  las1 !! c = las2 !! c -> alerts_of c t1 = alerts_of c t2 ->
  outcome_agree c (alert_loop pd vs tm coins las1 t1)
                  (alert_loop pd vs tm coins las2 t2).
Proof.
  revert las1 t1 las2 t2.
  induction coins as [|c' coins IH]; intros las1 t1 las2 t2 Hl Ht; simpl;
    [split; assumption|].
  pose proof (alert_body_agree pd vs tm c c' las1 t1 las2 t2 Hl Ht) as Hb.
  destruct (alert_body pd vs tm c' las1 t1) as [l1 u1|e1 l1],
           (alert_body pd vs tm c' las2 t2) as [l2 u2|e2 l2];
    simpl in Hb; try contradiction.
  - destruct Hb as [Hl' Ht']. apply IH; assumption.
  - exact Hb.
Qed.

Lemma history_loop_agree pd vs c coins h1 h2 :
  h1 !! c = h2 !! c ->
  history_loop pd vs coins h1 !! c = history_loop pd vs coins h2 !! c.
Proof.
  unfold history_loop. revert h1 h2.
  induction coins as [|c' coins IH]; intros h1 h2 H; simpl; [exact H|].
  apply IH. destruct (decide (c' = c)) as [->|Hne].
  - unfold append_price, get_hist. rewrite H.
    destruct (get_price pd c vs); [|exact H].
    rewrite !lookup_insert_eq. reflexivity.
  - rewrite !append_price_other by exact Hne. exact H.
Qed.

(** What a cycle does for coin [c] depends on the session through the
    entries of [c] only. *)
Lemma cycle_agree coins vs rows pd c s1 s2 :
  session_agree c s1 s2 ->
  session_agree c (cycle coins vs rows pd s1).1 (cycle coins vs rows pd s2).1 /\
  alerts_of c (emitted (cycle coins vs rows pd s1).2) =
  alerts_of c (emitted (cycle coins vs rows pd s2).2).
Proof.
  intros [Hh Hl]. unfold cycle, session_agree.
  pose proof (alert_loop_agree pd vs (th_map rows) c coins
                (last_alert_state s1) [] (last_alert_state s2) []
                Hl eq_refl) as Ha.
  pose proof (history_loop_agree pd vs c coins _ _ Hh) as Hh'.
  destruct (alert_loop pd vs (th_map rows) coins (last_alert_state s1) [])
    as [l1 u1|e1 l1],
    (alert_loop pd vs (th_map rows) coins (last_alert_state s2) [])
    as [l2 u2|e2 l2]; simpl in *; try contradiction.
  - destruct Ha as [Ha1 Ha2]. repeat split; assumption.
  - destruct Ha as [_ Ha]. repeat split; assumption.
Qed.

Lemma cycles_agree coins vs inputs c s1 s2 :
  session_agree c s1 s2 ->
  session_agree c (cycles coins vs inputs s1).1 (cycles coins vs inputs s2).1 /\
  (fun out => alerts_of c (emitted out)) <$> (cycles coins vs inputs s1).2 =
  (fun out => alerts_of c (emitted out)) <$> (cycles coins vs inputs s2).2.
Proof.
  revert s1 s2.
  induction inputs as [|[rows pd] inputs IH]; intros s1 s2 H; simpl;
    [split; [exact H | reflexivity]|].
  destruct (cycle_agree coins vs rows pd c s1 s2 H) as [Hs Ho].
  destruct (cycle coins vs rows pd s1) as [s1' o1],
           (cycle coins vs rows pd s2) as [s2' o2]; simpl in Hs, Ho.
  destruct (IH s1' s2' Hs) as [IHs IHo].
  destruct (cycles coins vs inputs s1') as [s1'' os1],
           (cycles coins vs inputs s2') as [s2'' os2].
  split; [exact IHs|]. cbn [snd] in *. rewrite !fmap_cons.
  f_equal; assumption.
Qed.

(** ** A cycle without a price *)

(** C3. The frame of an absent price.  A cycle in which the quote of coin
    [c] is absent emits no alert for [c], leaves the latch of [c] and the
    history of [c] as they were, whatever happens to the other coins; and
    all later cycles, whatever their coins, table and prices, treat [c] as
    if that cycle had not taken place: the same alerts for [c] in every
    cycle, the same latch and the same history at the end. *)
Theorem absent_price_frame (coins : list string) (vs : string)
    (rows : list row) (pd : gmap string (gmap string num)) (s : session)
    (c : string) :
  get_price pd c vs = None ->
  alerts_of c (emitted (cycle coins vs rows pd s).2) = [] /\
  last_alert_state (cycle coins vs rows pd s).1 !! c
    = last_alert_state s !! c /\
  history (cycle coins vs rows pd s).1 !! c = history s !! c /\
  forall coins' vs' inputs,
    session_agree c (cycles coins' vs' inputs (cycle coins vs rows pd s).1).1
                    (cycles coins' vs' inputs s).1 /\
    (fun out => alerts_of c (emitted out)) <$>
      (cycles coins' vs' inputs (cycle coins vs rows pd s).1).2 =
    (fun out => alerts_of c (emitted out)) <$> (cycles coins' vs' inputs s).2.
Proof.
  intros Hp.
  assert (Hframe :
    alerts_of c (emitted (cycle coins vs rows pd s).2) = [] /\
    last_alert_state (cycle coins vs rows pd s).1 !! c
      = last_alert_state s !! c /\
    history (cycle coins vs rows pd s).1 !! c = history s !! c).
  { unfold cycle.
    pose proof (alert_loop_absent pd vs (th_map rows) c coins
                  (last_alert_state s) [] Hp) as Ha.
    pose proof (history_loop_absent pd vs c coins (history s) Hp) as Hh.
    destruct (alert_loop pd vs (th_map rows) coins (last_alert_state s) [])
      as [las t|e las]; simpl.
    - destruct Ha as [Hl Ht]. repeat split; assumption.
    - repeat split; assumption. }
  destruct Hframe as (He & Hl & Hh). repeat split; try assumption;
    apply cycles_agree; split; assumption.
Qed.

(** C3 at a concrete cycle: ethereum has a quote, bitcoin has none and
    its latch for the lower bound is set. *)
Lemma absent_price_frame_witness :
  alerts_of "bitcoin"
    (emitted (cycle ["bitcoin"; "ethereum"] "usd"
                [Row "bitcoin" (CFloat 100) CNone;
                 Row "ethereum" (CFloat 5000) CNone]
                (quote "ethereum" "usd" (PFloat 3000))
                (Session {[ "bitcoin" := [PFloat 95] ]}
                         {[ "bitcoin" := Edge false true ]})).2) = [] /\
  last_alert_state
    (cycle ["bitcoin"; "ethereum"] "usd"
       [Row "bitcoin" (CFloat 100) CNone; Row "ethereum" (CFloat 5000) CNone]
       (quote "ethereum" "usd" (PFloat 3000))
       (Session {[ "bitcoin" := [PFloat 95] ]}
                {[ "bitcoin" := Edge false true ]})).1 !! "bitcoin"
    = Some (Edge false true).
Proof.
  pose proof (absent_price_frame ["bitcoin"; "ethereum"] "usd"
                [Row "bitcoin" (CFloat 100) CNone;
                 Row "ethereum" (CFloat 5000) CNone]
                (quote "ethereum" "usd" (PFloat 3000))
                (Session {[ "bitcoin" := [PFloat 95] ]}
                         {[ "bitcoin" := Edge false true ]})
                "bitcoin" eq_refl) as (H1 & H2 & _).
  split; [exact H1 | exact H2].
Defined.

(** ** Cells of the threshold table *)

Lemma is_nan_Prim2SF f : is_nan f = true -> Prim2SF f = S754_nan.
Proof. intros H. unfold Prim2SF. rewrite H. reflexivity. Qed.

Lemma SFcompare_nan_r a : SFcompare a S754_nan = None.
Proof. destruct a; reflexivity. Qed.

(** No price is at or past a NaN bound. *)
Lemma past_nan d price f : is_nan f = true -> past d price f = false.
Proof.
  intros H. pose proof (is_nan_Prim2SF f H) as Hn.
  destruct d, price as [z|x]; simpl;
    unfold int_cmp_float; rewrite ?leb_spec, ?Hn; simpl;
    rewrite ?SFcompare_nan_r; try reflexivity.
  all: unfold SFleb; try rewrite SFcompare_nan_r; reflexivity.
Qed.

Lemma no_bound_crossed_val d price v :
  no_bound v = true -> crossed_val (past d) price v = false.
Proof.
  unfold no_bound, crossed_val. destruct v as [|f|s]; [reflexivity | |];
    (destruct (py_float _) as [g|e]; [apply past_nan | discriminate]).
Qed.

Lemma no_bound_cell_ok v : no_bound v = true -> cell_ok v = true.
Proof.
  unfold no_bound, cell_ok. destruct v; [reflexivity | |];
    (destruct (py_float _); [reflexivity | discriminate]).
Qed.

(** C4, as the code has it.  The evaluation of a row completes exactly
    when each of [lower] and [upper] is [None], a float (NaN included) or
    text that [float] converts; it then yields no event for a bound that
    is [None] or NaN and leaves that latch clear.  When a cell holds text
    that [float] rejects, the evaluation raises [ValueError] and yields
    nothing. *)
Theorem threshold_values (c vs : string) (price : num) (th : row)
    (ls : edge) :
  (cell_ok (lower th) = true -> cell_ok (upper th) = true ->
   exists evs ls',
     evaluate c vs price th ls = Ok (evs, ls') /\
     (no_bound (lower th) = true ->
        count_dir Below evs = 0%nat /\ below ls' = false) /\
     (no_bound (upper th) = true ->
        count_dir Above evs = 0%nat /\ above ls' = false)) /\
  (cell_ok (lower th) && cell_ok (upper th) = false ->
   evaluate c vs price th ls = Raise ValueError).
Proof.
  split; [|apply evaluate_raises].
  intros Hl Hu.
  destruct (evaluate_dir Below c vs price th ls Hl Hu)
    as (evs & ls' & He & Hc & Hs).
  destruct (evaluate_dir Above c vs price th ls Hl Hu)
    as (evs' & ls'' & He' & Hc' & Hs').
  rewrite He in He'. injection He' as <- <-.
  exists evs, ls'. split; [exact He|].
  cbn [latch bound] in Hc, Hs, Hc', Hs'.
  split; intros Hn.
  - rewrite Hc, Hs, (no_bound_crossed_val Below price _ Hn).
    split; reflexivity.
  - rewrite Hc', Hs', (no_bound_crossed_val Above price _ Hn).
    split; reflexivity.
Qed.

(** C4 fails as stated: text that is not a number in [lower] makes the
    evaluation, and with it the whole cycle, raise [ValueError]. *)
Lemma threshold_text_raises :
  evaluate "bitcoin" "usd" (PFloat 45) (Row "bitcoin" (CStr "abc") CNone)
    edge_init = Raise ValueError /\
  ~ (exists r, evaluate "bitcoin" "usd" (PFloat 45)
                 (Row "bitcoin" (CStr "abc") CNone) edge_init = Ok r) /\
  (cycle ["bitcoin"] "usd" [Row "bitcoin" (CStr "abc") CNone]
     (quote "bitcoin" "usd" (PFloat 45)) session_init).2 = Raise ValueError.
Proof.
  assert (H : evaluate "bitcoin" "usd" (PFloat 45)
                (Row "bitcoin" (CStr "abc") CNone) edge_init
              = Raise ValueError) by (vm_compute; reflexivity).
  split; [exact H|]. split.
  - intros [r Hr]. rewrite H in Hr. discriminate.
  - vm_compute. reflexivity.
Qed.

(** ** The history window *)

Section Window.

Context {A : Type}.
Implicit Types l k : list A.

Lemma last_n_length n l : length (last_n n l) = (n `min` length l)%nat.
Proof. unfold last_n. rewrite length_drop. lia. Qed.

Lemma last_n_short n l : (length l <= n)%nat -> last_n n l = l.
Proof.
  intros H. unfold last_n. replace (length l - n)%nat with 0%nat by lia.
  reflexivity.
Qed.

(** Cutting to the window early does not change the window. *)
Lemma last_n_app_l n l k : last_n n (last_n n l ++ k) = last_n n (l ++ k).
Proof.
  unfold last_n.
  rewrite <- (drop_app_le l k (length l - n)) by lia.
  rewrite drop_drop. f_equal.
  rewrite length_drop, !length_app. lia.
Qed.

End Window.

(** Lines 196-198: what is stored is the window of the extended list. *)
Lemma append_price_some h c p :
  append_price h c (Some p) =
    <[c := last_n HISTORY_LEN (get_hist h c ++ [p])]> h.
Proof.
  unfold append_price.
  destruct (HISTORY_LEN <? length (get_hist h c ++ [p]))%nat eqn:E;
    [reflexivity|].
  apply Nat.ltb_ge in E. rewrite (last_n_short _ _ E). reflexivity.
Qed.

Lemma get_hist_append_same h c p :
  get_hist (append_price h c (Some p)) c
    = last_n HISTORY_LEN (get_hist h c ++ [p]).
Proof.
  rewrite append_price_some. unfold get_hist at 1.
  rewrite lookup_insert_eq. reflexivity.
Qed.

Lemma get_hist_append_other h c c' p :
  c' <> c -> get_hist (append_price h c' p) c = get_hist h c.
Proof.
  intros Hne. unfold get_hist. rewrite (append_price_other _ _ _ _ Hne).
  reflexivity.
Qed.

Lemma prices_of_same c p appends :
  prices_of c ((c, Some p) :: appends) = p :: prices_of c appends.
Proof. unfold prices_of. simpl. rewrite decide_True; reflexivity. Qed.

Lemma prices_of_none c k appends :
  prices_of c ((k, None) :: appends) = prices_of c appends.
Proof. unfold prices_of. simpl. destruct (decide (k = c)); reflexivity. Qed.

Lemma prices_of_other c k p appends :
  k <> c -> prices_of c ((k, p) :: appends) = prices_of c appends.
Proof. intros H. unfold prices_of. simpl. rewrite decide_False; done. Qed.

(** The buffer of a coin after any appends is the window of what it held
    followed by the prices appended for it. *)
Lemma run_appends_window c appends h :
  (length (get_hist h c) <= HISTORY_LEN)%nat ->
  get_hist (run_appends h appends) c
    = last_n HISTORY_LEN (get_hist h c ++ prices_of c appends).
Proof.
  revert h. induction appends as [|[k p] appends IH]; intros h Hlen.
  - unfold run_appends, prices_of. simpl.
    rewrite app_nil_r, last_n_short; [reflexivity | exact Hlen].
  - change (run_appends h ((k, p) :: appends))
      with (run_appends (append_price h k p) appends).
    destruct (decide (k = c)) as [->|Hne]; [destruct p as [p|]|].
    + rewrite prices_of_same, IH, get_hist_append_same.
      * rewrite last_n_app_l, <- app_assoc. reflexivity.
      * rewrite get_hist_append_same, last_n_length. lia.
    + rewrite prices_of_none. apply IH. exact Hlen.
    + rewrite (prices_of_other _ _ _ _ Hne), IH,
        (get_hist_append_other _ _ _ _ Hne); [reflexivity|].
      rewrite (get_hist_append_other _ _ _ _ Hne). exact Hlen.
Qed.

(** The history loops of successive cycles are such a sequence. *)
Lemma cycles_history coins vs inputs s :
  history (cycles coins vs inputs s).1
    = run_appends (history s) (appends_of coins vs (snd <$> inputs)).
Proof.
  revert s. induction inputs as [|[rows pd] inputs IH]; intros s; simpl;
    [reflexivity|].
  unfold appends_of, run_appends in *. simpl.
  rewrite foldl_app, foldl_fmap. simpl.
  destruct (cycle coins vs rows pd s) as [s1 o1] eqn:Hc.
  specialize (IH s1).
  destruct (cycles coins vs inputs s1) as [s2 os]. simpl in *.
  rewrite IH. f_equal.
  unfold cycle in Hc.
  destruct (alert_loop pd vs (th_map rows) coins (last_alert_state s) []);
    injection Hc as <- _; reflexivity.
Qed.

(** C5. The bounded window of the history.  From the empty history of a
    fresh session, after any sequence of appends (any coins, prices
    present or absent, in any order) the buffer of coin [c] is the list of
    the present prices appended for [c], in the order of the appends and
    with repetitions kept, without its first [M - HISTORY_LEN] entries
    when their number [M] exceeds [HISTORY_LEN] = 300: its length is the
    smaller of [M] and 300, hence never above 300, and exactly 300 with
    the last 300 prices when [M > 300]. *)
Theorem history_window (c : string) (appends : list (string * option num)) :
  HISTORY_LEN = 300%nat /\
  get_hist (run_appends ∅ appends) c
    = drop (length (prices_of c appends) - HISTORY_LEN) (prices_of c appends) /\
  length (get_hist (run_appends ∅ appends) c)
    = (HISTORY_LEN `min` length (prices_of c appends))%nat.
Proof.
  split; [reflexivity|].
  assert (H : get_hist (run_appends ∅ appends) c
              = last_n HISTORY_LEN (prices_of c appends)).
  { rewrite run_appends_window; [reflexivity|].
    unfold get_hist. rewrite lookup_empty. simpl. lia. }
  rewrite H. split; [reflexivity | apply last_n_length].
Qed.

(** The same for the cycles of a session. *)
Corollary history_window_cycles coins vs inputs c :
  get_hist (history (cycles coins vs inputs session_init).1) c
    = last_n HISTORY_LEN
        (prices_of c (appends_of coins vs (snd <$> inputs))).
Proof.
  rewrite cycles_history. simpl.
  rewrite run_appends_window; [reflexivity|].
  unfold get_hist. rewrite lookup_empty. simpl. lia.
Qed.

(** C9. Appending an absent price is a no-op: the history, and so the
    length and the contents of every buffer, stay as they are. *)
Theorem append_absent_noop (h : gmap string (list num)) (c : string) :
  append_price h c None = h /\
  get_hist (append_price h c None) c = get_hist h c /\
  length (get_hist (append_price h c None) c) = length (get_hist h c).
Proof. repeat split. Qed.

(** ** The scenarios *)

(** C6. Scenario 1: bound [lower = 100], no upper bound, prices 105, 100,
    95, 101, 99 from a clear latch.  Two events fire, both "below": at the
    second sample (100 <= 100) and at the fifth (99, after 101 cleared the
    latch); nothing fires at 105, 95 and 101.  Stated for the evaluations
    of the coin and for whole cycles of a fresh session. *)
Theorem scenario_1_trace :
  evaluate_seq "bitcoin" "usd" (Row "bitcoin" (CFloat 100) CNone) edge_init
    (Some <$> [PFloat 105; PFloat 100; PFloat 95; PFloat 101; PFloat 99])
  = Ok ([ [];
          [("bitcoin", Msg "bitcoin" (PFloat 100) "USD" Below (CFloat 100))];
          [];
          [];
          [("bitcoin", Msg "bitcoin" (PFloat 99) "USD" Below (CFloat 100))] ],
        Edge false true) /\
  (cycles ["bitcoin"] "usd"
     ((fun p => ([Row "bitcoin" (CFloat 100) CNone],
                 quote "bitcoin" "usd" p)) <$>
      [PFloat 105; PFloat 100; PFloat 95; PFloat 101; PFloat 99])
     session_init).2
  = [ Ok [];
      Ok [("bitcoin", Msg "bitcoin" (PFloat 100) "USD" Below (CFloat 100))];
      Ok [];
      Ok [];
      Ok [("bitcoin", Msg "bitcoin" (PFloat 99) "USD" Below (CFloat 100))] ].
Proof. split; vm_compute; reflexivity. Qed.

(** The same run with the prices as JSON integers and the bound typed as
    text into the table. *)
Example scenario_1_int_text :
  directions <$>
    (emitted <$>
       (cycles ["bitcoin"] "usd"
          ((fun p => ([Row "bitcoin" (CStr "100") CNone],
                      quote "bitcoin" "usd" p)) <$>
           [PInt 105; PInt 100; PInt 95; PInt 101; PInt 99])
          session_init).2)
  = [[]; [Below]; []; []; [Below]].
Proof. vm_compute. reflexivity. Qed.

(** C7. Scenario 4: with [lower = 50] above [upper = 40] and the price 45
    seen from a clear latch, [crossed_below] (45 <= 50) and
    [crossed_above] (45 >= 40) both hold, and the evaluation completes
    with two events in the same cycle, "below" then "above": the two
    branches are independent. *)
Theorem scenario_4_both_fire :
  crossed py_le (PFloat 45) (CFloat 50) = Ok true /\
  crossed py_ge (PFloat 45) (CFloat 40) = Ok true /\
  evaluate "bitcoin" "usd" (PFloat 45) (Row "bitcoin" (CFloat 50) (CFloat 40))
    edge_init
  = Ok ([("bitcoin", Msg "bitcoin" (PFloat 45) "USD" Below (CFloat 50));
         ("bitcoin", Msg "bitcoin" (PFloat 45) "USD" Above (CFloat 40))],
        Edge true true) /\
  cycle ["bitcoin"] "usd" [Row "bitcoin" (CFloat 50) (CFloat 40)]
    (quote "bitcoin" "usd" (PFloat 45)) session_init
  = (Session {[ "bitcoin" := [PFloat 45] ]} {[ "bitcoin" := Edge true true ]},
     Ok [("bitcoin", Msg "bitcoin" (PFloat 45) "USD" Below (CFloat 50));
         ("bitcoin", Msg "bitcoin" (PFloat 45) "USD" Above (CFloat 40))]).
Proof. repeat split; vm_compute; reflexivity. Qed.

(** ** Rows without bounds *)

Lemma evaluate_no_bounds c vs price th ls :
  lower th = CNone -> upper th = CNone ->
  evaluate c vs price th ls = Ok ([], edge_init).
Proof.
  intros Hl Hu. unfold evaluate. rewrite Hl, Hu. simpl.
  destruct ls as [[] []]; reflexivity.
Qed.

Lemma alert_loop_no_bounds pd vs tm c th coins las t :
  tm !! c = Some th -> lower th = CNone -> upper th = CNone ->
  match alert_loop pd vs tm coins las t with
  | Done _ t' => alerts_of c t' = alerts_of c t
  | Raised _ _ => True
  end.
Proof.
  intros Ht Hl Hu. revert las t.
  induction coins as [|c' coins IH]; intros las t; simpl; [reflexivity|].
  destruct (decide (c' = c)) as [->|Hne].
  - unfold alert_body. rewrite Ht.
    destruct (get_price pd c vs) as [price|]; [|apply IH].
    rewrite (evaluate_no_bounds _ _ _ _ _ Hl Hu), app_nil_r. apply IH.
  - pose proof (alert_body_other pd vs tm c c' las t Hne) as Hb.
    destruct (alert_body pd vs tm c' las t) as [las1 t1|e las1]; [|exact I].
    destruct Hb as [_ Hb]. specialize (IH las1 t1).
    destruct (alert_loop pd vs tm coins las1 t1); [congruence | exact I].
Qed.

(** C8. No bounds, no events.  For a row with [lower] and [upper] both
    absent, an evaluation returns no event at any price and from any
    latch; so does every evaluation over any sequence of cycles; and a
    whole cycle emits no alert for a coin that has such a row. *)
Theorem no_bounds_quiescence (c vs : string) (th : row) :
  lower th = CNone -> upper th = CNone ->
  (forall price ls, evaluate c vs price th ls = Ok ([], edge_init)) /\
  (forall prices ls, exists ls',
     evaluate_seq c vs th ls prices = Ok (replicate (length prices) [], ls')) /\
  (forall coins rows pd s,
     th_map rows !! c = Some th ->
     alerts_of c (emitted (cycle coins vs rows pd s).2) = []).
Proof.
  intros Hl Hu. split; [|split].
  - intros price ls. apply evaluate_no_bounds; assumption.
  - intros prices. induction prices as [|[p|] prices IH]; intros ls.
    + exists ls. reflexivity.
    + cbn [evaluate_seq]. rewrite (evaluate_no_bounds _ _ _ _ _ Hl Hu).
      cbn. destruct (IH edge_init) as [ls' ->]. exists ls'. reflexivity.
    + cbn [evaluate_seq]. destruct (IH ls) as [ls' ->]. exists ls'.
      reflexivity.
  - intros coins rows pd s Ht. unfold cycle.
    pose proof (alert_loop_no_bounds pd vs (th_map rows) c th coins
                  (last_alert_state s) [] Ht Hl Hu) as H.
    destruct (alert_loop pd vs (th_map rows) coins (last_alert_state s) []);
      [exact H | reflexivity].
Qed.

(** C8 at a concrete row: bitcoin without bounds beside ethereum with a
    bound that is crossed. *)
Lemma no_bounds_quiescence_witness :
  evaluate "bitcoin" "usd" (PFloat 45) (Row "bitcoin" CNone CNone)
    (Edge true true) = Ok ([], edge_init) /\
  alerts_of "bitcoin"
    (emitted (cycle ["ethereum"; "bitcoin"] "usd"
                [Row "bitcoin" CNone CNone; Row "ethereum" (CFloat 5000) CNone]
                ({[ "bitcoin" := {[ "usd" := PFloat 45 ]};
                    "ethereum" := {[ "usd" := PFloat 3000 ]} ]})
                session_init).2) = [].
Proof.
  pose proof (no_bounds_quiescence "bitcoin" "usd" (Row "bitcoin" CNone CNone)
                eq_refl eq_refl) as (H1 & _ & H3).
  split; [apply H1|]. apply H3. reflexivity.
Defined.

(** ** How many alerts, and in which order *)

(** The alerts of one evaluation: at most one per direction, "below"
    before "above". *)
Lemma evaluate_shape c vs price th ls evs ls' :
  evaluate c vs price th ls = Ok (evs, ls') ->
  Forall (fun ev => ev.1 = c) evs /\
  (length evs <= 2)%nat /\
  (count_dir Below evs <= 1)%nat /\ (count_dir Above evs <= 1)%nat /\
  sublist (directions evs) [Below; Above].
Proof.
  intros He. split; [exact (evaluate_coin _ _ _ _ _ _ _ He)|].
  destruct (evaluate_total c vs price th ls)
    as [(evs0 & ls0 & _ & Hl & Hu & _) | [He' _]]; [|congruence].
  rewrite (evaluate_ok _ _ _ _ _ Hl Hu) in He. injection He as <- _.
  destruct (crossed_val py_le price (lower th) && negb (below ls)),
           (crossed_val py_ge price (upper th) && negb (above ls));
    (repeat split; [simpl; lia | vm_compute; lia | vm_compute; lia
                   | repeat constructor]).
Qed.

(** A second evaluation of a coin in the same cycle finds both latches as
    the first one left them and appends nothing. *)
Lemma evaluate_again c vs price th :
  cell_ok (lower th) = true -> cell_ok (upper th) = true ->
  let ls := Edge (crossed_val py_ge price (upper th))
                 (crossed_val py_le price (lower th)) in
  evaluate c vs price th ls = Ok ([], ls).
Proof.
  intros Hl Hu ls. rewrite (evaluate_ok _ _ _ _ _ Hl Hu). subst ls. simpl.
  destruct (crossed_val py_le price (lower th)),
           (crossed_val py_ge price (upper th)); reflexivity.
Qed.

(** Through the loop, also when [coins] names a coin more than once: the
    alerts of [c] are those of its first evaluation. *)
Lemma alert_loop_shape pd vs tm c coins las t :
  sublist (directions (alerts_of c t)) [Below; Above] ->
  (alerts_of c t <> [] -> las !! c = latch_of pd vs tm c) ->
  match alert_loop pd vs tm coins las t with
  | Done _ t' => sublist (directions (alerts_of c t')) [Below; Above]
  | Raised _ _ => True
  end.
Proof.
  revert las t.
  induction coins as [|c' coins IH]; intros las t Hsub Hlatch; simpl;
    [exact Hsub|].
  destruct (decide (c' = c)) as [->|Hne].
  - unfold alert_body, latch_of in *.
    destruct (get_price pd c vs) as [price|]; [|apply IH; assumption].
    destruct (tm !! c) as [th|]; [|apply IH; assumption].
    simpl in Hlatch.
    destruct (evaluate_total c vs price th (default edge_init (las !! c)))
      as [(evs & ls' & He & Hl & Hu & Hs) | [He _]]; rewrite He; [|exact I].
    destruct (alerts_of c t) as [|ev rest] eqn:Ht.
    + apply IH.
      * rewrite alerts_of_app, Ht. simpl.
        destruct (evaluate_shape _ _ _ _ _ _ _ He) as (Hc & _ & _ & _ & Hd).
        rewrite (alerts_of_same _ _ Hc). exact Hd.
      * intros _. rewrite lookup_insert_eq, Hs. reflexivity.
    + rewrite Hlatch in He by discriminate. simpl in He.
      rewrite (evaluate_again c vs price th Hl Hu) in He.
      injection He as <- <-. apply IH.
      * rewrite app_nil_r, Ht. exact Hsub.
      * intros _. rewrite lookup_insert_eq. reflexivity.
  - pose proof (alert_body_other pd vs tm c c' las t Hne) as Hb.
    destruct (alert_body pd vs tm c' las t) as [las1 t1|e las1]; [|exact I].
    destruct Hb as [Hb1 Hb2]. apply IH; rewrite Hb2; [exact Hsub|].
    intros Hn. rewrite Hb1. apply Hlatch. exact Hn.
Qed.

(** C10. The alerts of one coin in one cycle.  An evaluation of coin [c]
    that completes appends to [triggered_alerts], after what is there,
    alerts of [c] only: at most two, at most one "below" and at most one
    "above", and the "below" one first when both fire. *)
Theorem event_bound_and_order (pd : gmap string (gmap string num))
    (vs : string) (tm : gmap string row) (c : string)
    (las : gmap string edge) (t : list (string * msg))
    (las' : gmap string edge) (t' : list (string * msg)) :
  alert_body pd vs tm c las t = Done las' t' ->
  exists evs,
    t' = t ++ evs /\
    Forall (fun ev => ev.1 = c) evs /\
    (length evs <= 2)%nat /\
    (count_dir Below evs <= 1)%nat /\ (count_dir Above evs <= 1)%nat /\
    sublist (directions evs) [Below; Above].
Proof.
  intros Hb. unfold alert_body in Hb.
  destruct (get_price pd c vs) as [price|];
    [destruct (tm !! c) as [th|]|].
  - destruct (evaluate c vs price th (default edge_init (las !! c)))
      as [[evs ls']|e] eqn:He; [|discriminate].
    injection Hb as <- <-. exists evs.
    split; [reflexivity | exact (evaluate_shape _ _ _ _ _ _ _ He)].
  - injection Hb as <- <-. exists []. rewrite app_nil_r.
    repeat split; [constructor | simpl; lia | vm_compute; lia
                  | vm_compute; lia | repeat constructor].
  - injection Hb as <- <-. exists []. rewrite app_nil_r.
    repeat split; [constructor | simpl; lia | vm_compute; lia
                  | vm_compute; lia | repeat constructor].
Qed.

(** The same for all the alerts that a whole cycle emits for [c], however
    often [coins] names it. *)
Corollary cycle_event_bound coins vs rows pd s c :
  sublist (directions (alerts_of c (emitted (cycle coins vs rows pd s).2)))
          [Below; Above].
Proof.
  unfold cycle.
  pose proof (alert_loop_shape pd vs (th_map rows) c coins
                (last_alert_state s) []) as H.
  destruct (alert_loop pd vs (th_map rows) coins (last_alert_state s) []);
    simpl; [|repeat constructor].
  apply H; [repeat constructor | intros Hn; contradiction Hn; reflexivity].
Qed.

(** C10 at the cycle of scenario 4, where both alerts fire. *)
Lemma event_bound_and_order_witness :
  exists evs,
    [("bitcoin", Msg "bitcoin" (PFloat 45) "USD" Below (CFloat 50));
     ("bitcoin", Msg "bitcoin" (PFloat 45) "USD" Above (CFloat 40))]
      = [] ++ evs /\
    Forall (fun ev => ev.1 = "bitcoin") evs /\
    (length evs <= 2)%nat /\
    (count_dir Below evs <= 1)%nat /\ (count_dir Above evs <= 1)%nat /\
    sublist (directions evs) [Below; Above].
Proof.
  exact (event_bound_and_order
           (quote "bitcoin" "usd" (PFloat 45)) "usd"
           (th_map [Row "bitcoin" (CFloat 50) (CFloat 40)]) "bitcoin"
           ∅ [] {[ "bitcoin" := Edge true true ]}
           [("bitcoin", Msg "bitcoin" (PFloat 45) "USD" Below (CFloat 50));
            ("bitcoin", Msg "bitcoin" (PFloat 45) "USD" Above (CFloat 40))]
           eq_refl).
Defined.

(** ** From the evaluations of one coin to the cycles of the script *)

Lemma th_map_lookup rows k r :
  th_map rows !! k = Some r -> r ∈ rows.
Proof.
  unfold th_map.
  assert (H : forall m : gmap string row,
             foldl (fun m r => <[coin r := r]> m) m rows !! k = Some r ->
             r ∈ rows \/ m !! k = Some r).
  { induction rows as [|r0 rows IH]; intros m Hm; simpl in Hm; [right; exact Hm|].
    destruct (IH _ Hm) as [Hin|Hlk]; [left; right; exact Hin|].
    destruct (decide (coin r0 = k)) as [<-|Hne].
    - rewrite lookup_insert_eq in Hlk. injection Hlk as ->. left; left.
    - rewrite lookup_insert_ne in Hlk by exact Hne. right; exact Hlk. }
  intros Hk. destruct (H ∅ Hk) as [Hin|Hlk]; [exact Hin|].
  rewrite lookup_empty in Hlk. discriminate.
Qed.

Section GoodTable.

(** A table in which every row converts: the alert loop cannot raise. *)
Context (pd : gmap string (gmap string num)) (vs : string)
        (tm : gmap string row).
Hypothesis tm_ok : forall k r, tm !! k = Some r -> row_ok r = true.

Lemma row_ok_cells r :
  row_ok r = true -> cell_ok (lower r) = true /\ cell_ok (upper r) = true.
Proof. unfold row_ok. intros H. apply andb_prop in H. exact H. Qed.

Lemma alert_body_done c las t :
  exists las' t', alert_body pd vs tm c las t = Done las' t'.
Proof.
  unfold alert_body.
  destruct (get_price pd c vs) as [price|]; [|eexists _, _; reflexivity].
  destruct (tm !! c) as [th|] eqn:Ht; [|eexists _, _; reflexivity].
  destruct (row_ok_cells th (tm_ok c th Ht)) as [Hl Hu].
  rewrite (evaluate_ok _ _ _ _ _ Hl Hu). eexists _, _; reflexivity.
Qed.

(** Once coin [c] has been evaluated in a cycle, the rest of the loop
    changes neither its latch nor its alerts. *)
Lemma alert_loop_after c price th coins las t :
  get_price pd c vs = Some price -> tm !! c = Some th ->
  las !! c = Some (Edge (crossed_val py_ge price (upper th))
                        (crossed_val py_le price (lower th))) ->
  exists las' t',
    alert_loop pd vs tm coins las t = Done las' t' /\
    las' !! c = las !! c /\ alerts_of c t' = alerts_of c t.
Proof.
  intros Hp Ht. destruct (row_ok_cells th (tm_ok c th Ht)) as [Hl Hu].
  revert las t. induction coins as [|c' coins IH]; intros las t Hlas; simpl.
  - eexists _, _. repeat split.
  - destruct (decide (c' = c)) as [->|Hne].
    + rewrite (alert_body_evaluate _ _ _ _ _ _ _ _ Hp Ht), Hlas. simpl.
      rewrite (evaluate_again c vs price th Hl Hu).
      destruct (IH (<[c := Edge (crossed_val py_ge price (upper th))
                                (crossed_val py_le price (lower th))]> las)
                   (t ++ [])) as (las' & t' & Hloop & Hl' & Ht').
      { apply lookup_insert_eq. }
      exists las', t'. split; [exact Hloop|].
      rewrite Hl', Ht', lookup_insert_eq, app_nil_r, ?Hlas.
      split; reflexivity.
    + pose proof (alert_body_other pd vs tm c c' las t Hne) as Hb.
      destruct (alert_body_done c' las t) as (las1 & t1 & Hd).
      rewrite Hd in *. destruct Hb as [Hb1 Hb2].
      destruct (IH las1 t1) as (las' & t' & Hloop & Hl' & Ht');
        [congruence|].
      exists las', t'. split; [exact Hloop | split; congruence].
Qed.

(** The loop over a list that names coin [c]: for [c] it is one
    evaluation, at the latch [c] had before the cycle. *)
Lemma alert_loop_present c price th coins las t :
  c ∈ coins -> get_price pd c vs = Some price -> tm !! c = Some th ->
  exists evs ls' las' t',
    evaluate c vs price th (default edge_init (las !! c)) = Ok (evs, ls') /\
    alert_loop pd vs tm coins las t = Done las' t' /\
    las' !! c = Some ls' /\ alerts_of c t' = alerts_of c t ++ evs.
Proof.
  intros Hin Hp Ht. destruct (row_ok_cells th (tm_ok c th Ht)) as [Hl Hu].
  revert las t. induction coins as [|c' coins IH]; intros las t.
  - inversion Hin.
  - simpl. destruct (decide (c' = c)) as [->|Hne].
    + clear IH.
      rewrite (alert_body_evaluate _ _ _ _ _ _ _ _ Hp Ht).
      destruct (evaluate_total c vs price th (default edge_init (las !! c)))
        as [(evs & ls' & He & _ & _ & Hs) | [_ Hbad]];
        [|rewrite Hl, Hu in Hbad; discriminate].
      rewrite He.
      destruct (alert_loop_after c price th coins (<[c := ls']> las)
                  (t ++ evs) Hp Ht) as (las' & t' & Hloop & Hl' & Ht').
      { rewrite lookup_insert_eq, Hs. reflexivity. }
      exists evs, ls', las', t'. split; [reflexivity|].
      split; [exact Hloop|].
      rewrite Hl', Ht', lookup_insert_eq, alerts_of_app,
        (alerts_of_same c evs (evaluate_coin _ _ _ _ _ _ _ He)).
      split; reflexivity.
    + assert (Hin' : c ∈ coins).
      { apply elem_of_cons in Hin. destruct Hin as [->|Hin];
          [contradiction Hne; reflexivity | exact Hin]. }
      pose proof (alert_body_other pd vs tm c c' las t Hne) as Hb.
      destruct (alert_body_done c' las t) as (las1 & t1 & Hd).
      rewrite Hd in *. destruct Hb as [Hb1 Hb2].
      destruct (IH Hin' las1 t1) as (evs & ls' & las' & t' & He & Hloop & Hl' & Ht').
      exists evs, ls', las', t'. rewrite <- Hb1, <- Hb2.
      repeat split; assumption.
Qed.

(** ... and nothing at all when [c] has no price. *)
Lemma alert_loop_no_price c coins las t :
  get_price pd c vs = None ->
  exists las' t',
    alert_loop pd vs tm coins las t = Done las' t' /\
    las' !! c = las !! c /\ alerts_of c t' = alerts_of c t.
Proof.
  intros Hp. revert las t. induction coins as [|c' coins IH]; intros las t; simpl.
  - eexists _, _. repeat split.
  - destruct (alert_body_done c' las t) as (las1 & t1 & Hd).
    assert (Hf : las1 !! c = las !! c /\ alerts_of c t1 = alerts_of c t).
    { destruct (decide (c' = c)) as [->|Hne].
      - rewrite (alert_body_absent _ _ _ _ _ _ Hp) in Hd.
        injection Hd as <- <-. split; reflexivity.
      - pose proof (alert_body_other pd vs tm c c' las t Hne) as Hb.
        rewrite Hd in Hb. exact Hb. }
    rewrite Hd. destruct Hf as [Hf1 Hf2].
    destruct (IH las1 t1) as (las' & t' & Hloop & Hl' & Ht').
    exists las', t'. split; [exact Hloop | split; congruence].
Qed.

End GoodTable.

(** Over the cycles of a session with a table in which every row converts,
    the alerts emitted for a coin on the watch list and the latch it is
    left with are those of [evaluate_seq] at the prices fetched for it. *)
Lemma cycles_evaluate_seq coins vs rows c th pds s :
  c ∈ coins -> Forall (fun r => row_ok r = true) rows ->
  th_map rows !! c = Some th ->
  exists evss ls',
    evaluate_seq c vs th (default edge_init (last_alert_state s !! c))
      ((fun pd => get_price pd c vs) <$> pds) = Ok (evss, ls') /\
    (fun out => alerts_of c (emitted out)) <$>
      (cycles coins vs ((fun pd => (rows, pd)) <$> pds) s).2 = evss /\
    default edge_init
      (last_alert_state (cycles coins vs ((fun pd => (rows, pd)) <$> pds) s).1
         !! c) = ls'.
Proof.
  intros Hin Hrows Ht.
  assert (Hok : forall k r, th_map rows !! k = Some r -> row_ok r = true).
  { intros k r Hk. rewrite Forall_forall in Hrows. apply Hrows.
    exact (th_map_lookup _ _ _ Hk). }
  revert s. induction pds as [|pd pds IH]; intros s.
  - eexists _, _. repeat split.
  - rewrite !fmap_cons. cbn [cycles evaluate_seq]. unfold cycle.
    destruct (get_price pd c vs) as [price|] eqn:Hp.
    + destruct (alert_loop_present pd vs (th_map rows) Hok c price th coins
                  (last_alert_state s) [] Hin Hp Ht)
        as (evs & ls1 & las' & t' & He & Hloop & Hl' & Ht').
      rewrite Hloop, He. cbn [mbind res_bind].
      destruct (IH (Session (history_loop pd vs coins (history s)) las'))
        as (evss & ls' & Hseq & Hout & Hlast).
      cbn [last_alert_state] in Hseq. rewrite Hl' in Hseq. simpl in Hseq.
      rewrite Hseq. cbn [mbind res_bind].
      destruct (cycles coins vs ((fun pd => (rows, pd)) <$> pds)
                  (Session (history_loop pd vs coins (history s)) las'))
        as [s2 outs].
      eexists _, _. split; [reflexivity|].
      cbn [fst snd] in *. rewrite fmap_cons, Hout.
      split; [|exact Hlast]. f_equal. exact Ht'.
    + destruct (alert_loop_no_price pd vs (th_map rows) Hok c coins
                  (last_alert_state s) [] Hp)
        as (las' & t' & Hloop & Hl' & Ht').
      rewrite Hloop.
      destruct (IH (Session (history_loop pd vs coins (history s)) las'))
        as (evss & ls' & Hseq & Hout & Hlast).
      cbn [last_alert_state] in Hseq. rewrite Hl' in Hseq.
      rewrite Hseq. cbn [mbind res_bind].
      destruct (cycles coins vs ((fun pd => (rows, pd)) <$> pds)
                  (Session (history_loop pd vs coins (history s)) las'))
        as [s2 outs].
      eexists _, _. split; [reflexivity|].
      cbn [fst snd] in *. rewrite fmap_cons, Hout.
      split; [|exact Hlast]. f_equal. exact Ht'.
Qed.

(** The edge-triggered pattern in the script itself: the alerts that the
    cycles of a session emit for a coin on the watch list. *)
Corollary edge_triggered_cycles d coins vs rows c th s f p ps q qs r pds :
  c ∈ coins -> Forall (fun r => row_ok r = true) rows ->
  th_map rows !! c = Some th ->
  py_float (bound d th) = Ok f ->
  latch d (default edge_init (last_alert_state s !! c)) = false ->
  (fun pd => get_price pd c vs) <$> pds
    = Some <$> (p :: ps) ++ (q :: qs) ++ [r] ->
  Forall (fun x => past d x f = true) (p :: ps) ->
  Forall (fun x => inside d x f = true) (q :: qs) ->
  past d r f = true ->
  (fun out => count_dir d (alerts_of c (emitted out))) <$>
    (cycles coins vs ((fun pd => (rows, pd)) <$> pds) s).2
  = [1%nat] ++ replicate (length ps) 0%nat ++
    replicate (length (q :: qs)) 0%nat ++ [1%nat].
Proof.
  intros Hin Hrows Ht Hf Hla Hpds Hp Hq Hr.
  destruct (cycles_evaluate_seq coins vs rows c th pds s Hin Hrows Ht)
    as (evss & ls' & He & Hout & _).
  rewrite Forall_forall in Hrows.
  pose proof (Hrows th (th_map_lookup _ _ _ Ht)) as Hok.
  apply andb_prop in Hok. destruct Hok as [Hl Hu].
  destruct (evaluate_seq_dir d c vs th
              (default edge_init (last_alert_state s !! c))
              ((fun pd => get_price pd c vs) <$> pds) Hl Hu)
    as (evss' & ls'' & He' & Hc & _).
  rewrite He in He'. injection He' as <- <-.
  rewrite Hla, Hpds in Hc.
  rewrite <- (proj1 (fires_seq_edge d th f p ps q qs r Hf Hp Hq Hr)), <- Hc,
    <- Hout, <- list_fmap_compose.
  reflexivity.
Qed.

(** * Further properties of the script *)

(** ** The lookup table of thresholds (line 237) *)

Lemma th_map_foldl rows (m : gmap string row) c :
  foldl (fun m r => <[coin r := r]> m) m rows !! c =
    match last (filter (fun r => coin r = c) rows) with
    | Some r => Some r
    | None => m !! c
    end.
Proof.
  revert m. induction rows as [|r0 rows IH]; intros m; [reflexivity|].
  cbn [foldl]. rewrite IH. rewrite filter_cons.
  destruct (decide (coin r0 = c)) as [Heq|Hne].
  - rewrite last_cons.
    destruct (last (filter (fun r => coin r = c) rows)); [reflexivity|].
    rewrite <- Heq. apply lookup_insert_eq.
  - destruct (last (filter (fun r => coin r = c) rows)); [reflexivity|].
    apply lookup_insert_ne. exact Hne.
Qed.

Lemma filter_coin_nil rows c :
  filter (fun r => coin r = c) rows = [] <-> c ∉ coin <$> rows.
Proof.
  induction rows as [|r rows IH]; [split; [intros _ H; inversion H | reflexivity]|].
  rewrite filter_cons, fmap_cons, not_elem_of_cons.
  destruct (decide (coin r = c)) as [Heq|Hne].
  - split; [discriminate | intros [Hc _]; congruence].
  - rewrite IH. split; [intros H; split; [congruence | exact H] | tauto].
Qed.

(** The row the alert loop uses for a coin is the last row of the table
    that names it, and there is none exactly when no row names it. *)
Theorem th_map_last (rows : list row) (c : string) :
  th_map rows !! c = last (filter (fun r => coin r = c) rows) /\
  (th_map rows !! c = None <-> c ∉ coin <$> rows).
Proof.
  assert (H : th_map rows !! c = last (filter (fun r => coin r = c) rows)).
  { unfold th_map. rewrite th_map_foldl, lookup_empty.
    destruct (last _); reflexivity. }
  split; [exact H|]. rewrite H, last_None. apply filter_coin_nil.
Qed.

Lemma th_map_lookup_last rows c :
  th_map rows !! c = last (filter (fun r => coin r = c) rows).
Proof.
  unfold th_map. rewrite th_map_foldl, lookup_empty.
  destruct (last _); reflexivity.
Qed.

Lemma th_map_coin rows c r : th_map rows !! c = Some r -> coin r = c.
Proof.
  rewrite th_map_lookup_last. intros Hl.
  apply last_Some_elem_of, list_elem_of_filter in Hl. exact (proj1 Hl).
Qed.

(** ** Seeding the threshold table (lines 151-169) *)

(** The loop of lines 164-169 in closed form: the table, then a row
    without bounds for every coin selected whose name was not in it. *)
Lemma add_missing_app coins thresholds :
  add_missing coins thresholds =
    thresholds ++
    df_init (filter (fun c => c ∉ coin <$> thresholds) coins).
Proof.
  unfold add_missing.
  set (existing := list_to_set (coin <$> thresholds) : gset string).
  assert (H : forall acc,
             foldl (fun th c => if decide (c ∈ existing) then th
                                else th ++ [Row c CNone CNone]) acc coins
             = acc ++ df_init (filter (fun c => c ∉ coin <$> thresholds) coins)).
  { induction coins as [|c coins IH]; intros acc; cbn [foldl].
    - unfold df_init. rewrite filter_nil. simpl. rewrite app_nil_r. reflexivity.
    - rewrite IH, filter_cons. unfold existing.
      destruct (decide (c ∈ (list_to_set (coin <$> thresholds) : gset string)))
        as [Hin|Hnin]; rewrite elem_of_list_to_set in *.
      + rewrite decide_False by (intros Hn; exact (Hn Hin)). reflexivity.
      + rewrite decide_True by exact Hnin. unfold df_init.
        rewrite fmap_cons, <- app_assoc. reflexivity. }
  apply H.
Qed.

Lemma df_init_coins coins : coin <$> df_init coins = coins.
Proof.
  unfold df_init. rewrite <- list_fmap_compose.
  induction coins as [|c coins IH]; [reflexivity|].
  rewrite fmap_cons, IH. reflexivity.
Qed.

Lemma df_init_elem r coins : r ∈ df_init coins -> r = Row (coin r) CNone CNone.
Proof.
  unfold df_init. intros H. apply list_elem_of_fmap in H as (c & -> & _).
  reflexivity.
Qed.

Lemma seed_thresholds_names coins stored c :
  c ∈ coins -> c ∈ coin <$> seed_thresholds coins stored.
Proof.
  intros Hin. destruct stored as [th|]; simpl.
  - rewrite add_missing_app, fmap_app, df_init_coins, elem_of_app.
    destruct (decide (c ∈ coin <$> th)) as [H|H]; [left; exact H|].
    right. apply list_elem_of_filter. split; assumption.
  - rewrite df_init_coins. exact Hin.
Qed.

Lemma seed_lookup coins stored c :
  c ∈ coins ->
  exists r, th_map (seed_thresholds coins stored) !! c = Some r /\ coin r = c.
Proof.
  intros Hin.
  destruct (th_map (seed_thresholds coins stored) !! c) as [r|] eqn:Hr.
  - exists r. split; [reflexivity | exact (th_map_coin _ _ _ Hr)].
  - rewrite th_map_lookup_last, last_None, filter_coin_nil in Hr.
    contradiction (Hr (seed_thresholds_names coins stored c Hin)).
Qed.

(** After seeding, every coin selected has a row: the alert loop finds a
    row for it, and that row names the coin. *)
Theorem seed_covers_selection (coins : list string)
    (stored : option (list row)) (c : string) :
  c ∈ coins ->
  exists r, th_map (seed_thresholds coins stored) !! c = Some r /\ coin r = c.
Proof. apply seed_lookup. Qed.

Lemma seed_covers_selection_witness :
  exists r,
    th_map (seed_thresholds ["bitcoin"; "dogecoin"]
              (Some [Row "bitcoin" (CFloat 100) CNone])) !! "dogecoin" = Some r /\
    coin r = "dogecoin".
Proof.
  apply (seed_covers_selection ["bitcoin"; "dogecoin"]
           (Some [Row "bitcoin" (CFloat 100) CNone]) "dogecoin").
  compute_done.
Defined.

(** Seeding keeps what the table holds: the table is a prefix of the
    seeded one, and the row the alert loop uses for a coin that had one,
    with the bounds the user gave it, is still the row it uses. *)
Theorem seed_keeps_rows (coins : list string) (thresholds : list row)
    (c : string) (r : row) :
  th_map thresholds !! c = Some r ->
  thresholds `prefix_of` add_missing coins thresholds /\
  th_map (add_missing coins thresholds) !! c = Some r.
Proof.
  intros Hr. rewrite add_missing_app. split; [apply prefix_app_r; reflexivity|].
  assert (Hin : c ∈ coin <$> thresholds).
  { destruct (decide (c ∈ coin <$> thresholds)) as [H|H]; [exact H|].
    rewrite th_map_lookup_last in Hr.
    apply filter_coin_nil in H. rewrite H in Hr. discriminate. }
  rewrite th_map_lookup_last in *. rewrite filter_app.
  replace (filter (fun r0 => coin r0 = c)
             (df_init (filter (fun c0 => c0 ∉ coin <$> thresholds) coins)))
    with (@nil row); [rewrite app_nil_r; exact Hr|].
  symmetry. apply filter_coin_nil. rewrite df_init_coins.
  intros H. apply list_elem_of_filter in H. exact (proj1 H Hin).
Qed.

Lemma seed_keeps_rows_witness :
  [Row "bitcoin" (CFloat 100) CNone]
    `prefix_of` add_missing ["bitcoin"; "dogecoin"]
                  [Row "bitcoin" (CFloat 100) CNone] /\
  th_map (add_missing ["bitcoin"; "dogecoin"]
            [Row "bitcoin" (CFloat 100) CNone]) !! "bitcoin"
    = Some (Row "bitcoin" (CFloat 100) CNone).
Proof.
  apply (seed_keeps_rows ["bitcoin"; "dogecoin"]
           [Row "bitcoin" (CFloat 100) CNone] "bitcoin").
  reflexivity.
Defined.

(** Seeding again with the same selection adds nothing. *)
Theorem seed_idempotent (coins : list string) (thresholds : list row) :
  add_missing coins (add_missing coins thresholds)
    = add_missing coins thresholds.
Proof.
  rewrite (add_missing_app coins (add_missing coins thresholds)).
  replace (filter (fun c => c ∉ coin <$> add_missing coins thresholds) coins)
    with (@nil string); [apply app_nil_r|].
  symmetry.
  assert (H : forall l, l ⊆ coins ->
                filter (fun c => c ∉ coin <$> add_missing coins thresholds) l
                = []).
  { induction l as [|c l IH]; intros Hl; [reflexivity|].
    rewrite filter_cons_False, IH; [reflexivity | set_solver |].
    intros Hn. apply Hn.
    apply (seed_thresholds_names coins (Some thresholds) c). set_solver. }
  apply H. reflexivity.
Qed.

(** A coin that is selected and was not in the table gets a row without
    bounds, and the cycle run on the seeded table emits no alert for it,
    at any price. *)
Theorem seeded_coin_is_quiet (coins : list string)
    (stored : option (list row)) (c : string) :
  c ∈ coins -> c ∉ coin <$> default [] stored ->
  th_map (seed_thresholds coins stored) !! c = Some (Row c CNone CNone) /\
  forall vs pd s,
    alerts_of c
      (emitted (cycle coins vs (seed_thresholds coins stored) pd s).2) = [].
Proof.
  intros Hin Hnew.
  assert (Hrow : th_map (seed_thresholds coins stored) !! c
                 = Some (Row c CNone CNone)).
  { destruct (seed_lookup coins stored c Hin) as (r & Hr & Hc).
    rewrite Hr. f_equal.
    assert (Hd : r ∈ df_init coins \/
                 r ∈ df_init (filter (fun c0 => c0 ∉ coin <$> default [] stored)
                                coins)).
    { pose proof (th_map_lookup _ _ _ Hr) as Hel.
      destruct stored as [th|]; simpl in *; [|left; exact Hel].
      rewrite add_missing_app, elem_of_app in Hel.
      destruct Hel as [Hel|Hel]; [|right; exact Hel].
      contradiction Hnew. rewrite <- Hc.
      apply list_elem_of_fmap. exists r. split; [reflexivity | exact Hel]. }
    destruct Hd as [Hd|Hd]; apply df_init_elem in Hd; rewrite Hd, Hc;
      reflexivity. }
  split; [exact Hrow|]. intros vs pd s. unfold cycle.
  pose proof (alert_loop_no_bounds pd vs (th_map (seed_thresholds coins stored))
                c (Row c CNone CNone) coins (last_alert_state s) []
                Hrow eq_refl eq_refl) as H.
  destruct (alert_loop pd vs (th_map (seed_thresholds coins stored)) coins
              (last_alert_state s) []); [exact H | reflexivity].
Qed.

Lemma seeded_coin_is_quiet_witness :
  th_map (seed_thresholds ["bitcoin"; "dogecoin"]
            (Some [Row "bitcoin" (CFloat 100) CNone])) !! "dogecoin"
    = Some (Row "dogecoin" CNone CNone) /\
  forall vs pd s,
    alerts_of "dogecoin"
      (emitted (cycle ["bitcoin"; "dogecoin"] vs
                  (seed_thresholds ["bitcoin"; "dogecoin"]
                     (Some [Row "bitcoin" (CFloat 100) CNone])) pd s).2) = [].
Proof.
  apply (seeded_coin_is_quiet ["bitcoin"; "dogecoin"]
           (Some [Row "bitcoin" (CFloat 100) CNone]) "dogecoin");
    compute_done.
Defined.

(** ** Which coins the alert loop touches (lines 239-247) *)

Lemma alert_loop_app pd vs tm coins1 coins2 las t :
  alert_loop pd vs tm (coins1 ++ coins2) las t =
    match alert_loop pd vs tm coins1 las t with
    | Done las1 t1 => alert_loop pd vs tm coins2 las1 t1
    | Raised e las1 => Raised e las1
    end.
Proof.
  revert las t. induction coins1 as [|c coins1 IH]; intros las t; simpl;
    [reflexivity|].
  destruct (alert_body pd vs tm c las t); [apply IH | reflexivity].
Qed.

(** The loop leaves alone a coin for which the body does nothing. *)
Lemma alert_loop_skips pd vs tm c coins las t :
  (forall las0 t0, c ∈ coins -> alert_body pd vs tm c las0 t0 = Done las0 t0) ->
  match alert_loop pd vs tm coins las t with
  | Done las' t' => las' !! c = las !! c /\ alerts_of c t' = alerts_of c t
  | Raised _ las' => las' !! c = las !! c
  end.
Proof.
  revert las t.
  induction coins as [|c' coins IH]; intros las t Hskip; simpl;
    [split; reflexivity|].
  assert (Hskip' : forall las0 t0, c ∈ coins ->
                     alert_body pd vs tm c las0 t0 = Done las0 t0).
  { intros las0 t0 Hc. apply Hskip. right. exact Hc. }
  destruct (decide (c' = c)) as [->|Hne].
  - rewrite Hskip by left. apply IH. exact Hskip'.
  - pose proof (alert_body_other pd vs tm c c' las t Hne) as Hb.
    destruct (alert_body pd vs tm c' las t) as [las1 t1|e las1].
    + destruct Hb as [Hl Ht]. specialize (IH las1 t1 Hskip').
      destruct (alert_loop pd vs tm coins las1 t1) as [las2 t2|e las2].
      * destruct IH as [IHl IHt]. split; congruence.
      * congruence.
    + subst las1. reflexivity.
Qed.

Lemma history_loop_unlisted pd vs c coins h :
  c ∉ coins -> history_loop pd vs coins h !! c = h !! c.
Proof.
  unfold history_loop. revert h.
  induction coins as [|c' coins IH]; intros h Hn; simpl; [reflexivity|].
  rewrite not_elem_of_cons in Hn. destruct Hn as [Hne Hn].
  rewrite IH by exact Hn. apply append_price_other. congruence.
Qed.

(** A coin that is not selected is out of both loops: whatever the table
    and the prices say about it, a cycle emits no alert for it and leaves
    its latch and its history as they were. *)
Theorem unselected_coin_frame (coins : list string) (vs : string)
    (rows : list row) (pd : gmap string (gmap string num)) (s : session)
    (c : string) :
  c ∉ coins ->
  alerts_of c (emitted (cycle coins vs rows pd s).2) = [] /\
  last_alert_state (cycle coins vs rows pd s).1 !! c
    = last_alert_state s !! c /\
  history (cycle coins vs rows pd s).1 !! c = history s !! c.
Proof.
  intros Hn. unfold cycle.
  pose proof (alert_loop_skips pd vs (th_map rows) c coins
                (last_alert_state s) []) as Ha.
  pose proof (history_loop_unlisted pd vs c coins (history s) Hn) as Hh.
  destruct (alert_loop pd vs (th_map rows) coins (last_alert_state s) [])
    as [las t|e las]; simpl.
  - destruct Ha as [Hl Ht]; [intros ? ? Hc; contradiction (Hn Hc)|].
    repeat split; assumption.
  - repeat split; [|exact Hh]. apply Ha. intros ? ? Hc. contradiction (Hn Hc).
Qed.

Lemma unselected_coin_frame_witness :
  alerts_of "bitcoin"
    (emitted (cycle ["ethereum"] "usd" [Row "bitcoin" (CFloat 100) CNone]
                (quote "bitcoin" "usd" (PFloat 95)) session_init).2) = [] /\
  last_alert_state
    (cycle ["ethereum"] "usd" [Row "bitcoin" (CFloat 100) CNone]
       (quote "bitcoin" "usd" (PFloat 95)) session_init).1 !! "bitcoin"
    = last_alert_state session_init !! "bitcoin" /\
  history
    (cycle ["ethereum"] "usd" [Row "bitcoin" (CFloat 100) CNone]
       (quote "bitcoin" "usd" (PFloat 95)) session_init).1 !! "bitcoin"
    = history session_init !! "bitcoin".
Proof.
  apply (unselected_coin_frame ["ethereum"] "usd"
           [Row "bitcoin" (CFloat 100) CNone]
           (quote "bitcoin" "usd" (PFloat 95)) session_init "bitcoin").
  compute_done.
Defined.

(** A coin without a row in the table (line 246) is never evaluated: no
    alert and the latch as it was, also when it is selected and has a
    price.  Its price is recorded in the history all the same. *)
Theorem coin_without_row (coins : list string) (vs : string)
    (rows : list row) (pd : gmap string (gmap string num)) (s : session)
    (c : string) (price : num) :
  c ∉ coin <$> rows -> get_price pd c vs = Some price -> c ∈ coins ->
  alerts_of c (emitted (cycle coins vs rows pd s).2) = [] /\
  last_alert_state (cycle coins vs rows pd s).1 !! c
    = last_alert_state s !! c /\
  exists older, get_hist (history (cycle coins vs rows pd s).1) c
                = older ++ [price].
Proof.
  intros Hrow Hp Hin.
  assert (Hnone : th_map rows !! c = None).
  { rewrite th_map_lookup_last, last_None. apply filter_coin_nil. exact Hrow. }
  assert (Hskip : forall las0 t0, c ∈ coins ->
            alert_body pd vs (th_map rows) c las0 t0 = Done las0 t0).
  { intros las0 t0 _. unfold alert_body. rewrite Hp, Hnone. reflexivity. }
  assert (Hhist : exists older,
            get_hist (history_loop pd vs coins (history s)) c = older ++ [price]).
  { clear Hskip. unfold history_loop. generalize (history s) as h.
    induction coins as [|c' coins IH]; intros h; [inversion Hin|].
    cbn [foldl]. destruct (decide (c ∈ coins)) as [Hc|Hc].
    - apply IH. exact Hc.
    - assert (c' = c) as -> by (apply elem_of_cons in Hin as [->|Hc']; [reflexivity | contradiction]).
      fold (history_loop pd vs coins (append_price h c (get_price pd c vs))).
      unfold get_hist at 1. rewrite (history_loop_unlisted _ _ _ _ _ Hc), Hp.
      fold (get_hist (append_price h c (Some price)) c).
      rewrite get_hist_append_same. unfold last_n.
      exists (drop (length (get_hist h c ++ [price]) - HISTORY_LEN)
                   (get_hist h c)).
      rewrite drop_app_le; [reflexivity|]. rewrite length_app. simpl.
      unfold HISTORY_LEN. lia. }
  unfold cycle.
  pose proof (alert_loop_skips pd vs (th_map rows) c coins
                (last_alert_state s) [] Hskip) as Ha.
  destruct (alert_loop pd vs (th_map rows) coins (last_alert_state s) [])
    as [las t|e las]; simpl.
  - destruct Ha as [Hl Ht]. repeat split; assumption.
  - repeat split; assumption.
Qed.

Lemma coin_without_row_witness :
  alerts_of "bitcoin"
    (emitted (cycle ["bitcoin"] "usd" [] (quote "bitcoin" "usd" (PFloat 95))
                session_init).2) = [] /\
  last_alert_state
    (cycle ["bitcoin"] "usd" [] (quote "bitcoin" "usd" (PFloat 95))
       session_init).1 !! "bitcoin"
    = last_alert_state session_init !! "bitcoin" /\
  exists older,
    get_hist (history (cycle ["bitcoin"] "usd" []
                         (quote "bitcoin" "usd" (PFloat 95))
                         session_init).1) "bitcoin"
    = older ++ [PFloat 95].
Proof.
  apply (coin_without_row ["bitcoin"] "usd" []
           (quote "bitcoin" "usd" (PFloat 95)) session_init "bitcoin"
           (PFloat 95)); [compute_done | reflexivity | compute_done].
Defined.

(** ** A cycle without prices (lines 36-49, 188-273) *)

Lemma cycle_no_prices coins vs rows pd s :
  (forall c, c ∈ coins -> get_price pd c vs = None) ->
  cycle coins vs rows pd s = (s, Ok []).
Proof.
  intros Hp. unfold cycle.
  assert (Hh : forall h, history_loop pd vs coins h = h).
  { unfold history_loop. induction coins as [|c coins IH]; intros h;
      [reflexivity|].
    cbn [foldl]. rewrite (Hp c) by left. cbn [append_price].
    apply IH. intros c' Hc'. apply Hp. right. exact Hc'. }
  assert (Ha : forall las t, alert_loop pd vs (th_map rows) coins las t
                             = Done las t).
  { induction coins as [|c coins IH]; intros las t; [reflexivity|].
    cbn [alert_loop]. rewrite alert_body_absent by (apply Hp; left).
    apply IH.
    - intros c' Hc'. apply Hp. right. exact Hc'.
    - intros h. specialize (Hh h). unfold history_loop in *.
      cbn [foldl] in Hh. rewrite (Hp c) in Hh by left. exact Hh. }
  rewrite Ha, Hh. destruct s; reflexivity.
Qed.

(** A failed fetch costs nothing: when the request raises, [fetch_prices]
    returns the empty mapping, and the cycle run on it returns the session
    as it was, with no alert and no exception, whatever the table holds. *)
Theorem failed_fetch_noop
    (get : string -> string -> option (gmap string (gmap string num)))
    (coins : list string) (vs : string) (rows : list row) (s : session) :
  get (String.concat "," coins) vs = None ->
  fetch_prices get coins vs = ∅ /\
  cycle coins vs rows (fetch_prices get coins vs) s = (s, Ok []) /\
  forall now deliver cfg w,
    notify now deliver cfg
      (emitted (cycle coins vs rows (fetch_prices get coins vs) s).2) w = w.
Proof.
  intros Hget.
  assert (Hf : fetch_prices get coins vs = ∅).
  { unfold fetch_prices. destruct coins; [reflexivity|]. rewrite Hget.
    reflexivity. }
  assert (Hc : cycle coins vs rows (fetch_prices get coins vs) s = (s, Ok [])).
  { rewrite Hf. apply cycle_no_prices.
    intros c _. unfold get_price. rewrite lookup_empty. apply lookup_empty. }
  split; [exact Hf|]. split; [exact Hc|]. intros now deliver cfg w.
  rewrite Hc. reflexivity.
Qed.

Lemma failed_fetch_noop_witness :
  cycle ["bitcoin"] "usd" [Row "bitcoin" (CStr "abc") CNone]
    (fetch_prices (fun _ _ => None) ["bitcoin"] "usd")
    (Session {[ "bitcoin" := [PFloat 95] ]} {[ "bitcoin" := Edge false true ]})
  = (Session {[ "bitcoin" := [PFloat 95] ]} {[ "bitcoin" := Edge false true ]},
     Ok []).
Proof.
  exact (proj1 (proj2
    (failed_fetch_noop (fun _ _ => None) ["bitcoin"] "usd"
       [Row "bitcoin" (CStr "abc") CNone]
       (Session {[ "bitcoin" := [PFloat 95] ]}
                {[ "bitcoin" := Edge false true ]})
       eq_refl))).
Defined.

(** ** An exception in the middle of the alert loop (lines 255-256) *)

(** When the row of a coin does not convert, the cycle raises at that
    coin: the alerts triggered for the coins before it are dropped, none
    is logged or mailed, yet the latches those coins set stay in the
    session. *)
Theorem exception_drops_alerts (coins1 : list string) (c : string)
    (coins2 : list string) (vs : string) (rows : list row)
    (pd : gmap string (gmap string num)) (s : session)
    (las1 : gmap string edge) (t1 : list (string * msg))
    (price : num) (th : row) :
  alert_loop pd vs (th_map rows) coins1 (last_alert_state s) [] = Done las1 t1 ->
  get_price pd c vs = Some price -> th_map rows !! c = Some th ->
  row_ok th = false ->
  (cycle (coins1 ++ c :: coins2) vs rows pd s).2 = Raise ValueError /\
  emitted (cycle (coins1 ++ c :: coins2) vs rows pd s).2 = [] /\
  last_alert_state (cycle (coins1 ++ c :: coins2) vs rows pd s).1 = las1.
Proof.
  intros H1 Hp Ht Hbad. unfold cycle.
  rewrite alert_loop_app, H1. cbn [alert_loop].
  rewrite (alert_body_evaluate _ _ _ _ _ _ _ _ Hp Ht),
    (evaluate_raises _ _ _ _ _ Hbad).
  repeat split.
Qed.

Lemma exception_drops_alerts_witness :
  (cycle (["bitcoin"] ++ "ethereum" :: []) "usd"
     [Row "bitcoin" (CFloat 100) CNone; Row "ethereum" (CStr "abc") CNone]
     ({[ "bitcoin" := {[ "usd" := PFloat 95 ]};
         "ethereum" := {[ "usd" := PFloat 3000 ]} ]}) session_init).2
    = Raise ValueError /\
  emitted
    (cycle (["bitcoin"] ++ "ethereum" :: []) "usd"
       [Row "bitcoin" (CFloat 100) CNone; Row "ethereum" (CStr "abc") CNone]
       ({[ "bitcoin" := {[ "usd" := PFloat 95 ]};
           "ethereum" := {[ "usd" := PFloat 3000 ]} ]}) session_init).2 = [] /\
  last_alert_state
    (cycle (["bitcoin"] ++ "ethereum" :: []) "usd"
       [Row "bitcoin" (CFloat 100) CNone; Row "ethereum" (CStr "abc") CNone]
       ({[ "bitcoin" := {[ "usd" := PFloat 95 ]};
           "ethereum" := {[ "usd" := PFloat 3000 ]} ]}) session_init).1
    = {[ "bitcoin" := Edge false true ]}.
Proof.
  apply (exception_drops_alerts ["bitcoin"] "ethereum" [] "usd"
           [Row "bitcoin" (CFloat 100) CNone; Row "ethereum" (CStr "abc") CNone]
           ({[ "bitcoin" := {[ "usd" := PFloat 95 ]};
               "ethereum" := {[ "usd" := PFloat 3000 ]} ]}) session_init
           {[ "bitcoin" := Edge false true ]}
           [alert_of "bitcoin" "usd" (PFloat 95)
              (Row "bitcoin" (CFloat 100) CNone) Below]
           (PFloat 3000) (Row "ethereum" (CStr "abc") CNone));
    reflexivity.
Defined.

(** ** What an alert means *)

Lemma evaluate_sound c vs price th ls evs ls' :
  evaluate c vs price th ls = Ok (evs, ls') ->
  Forall (fun ev => exists d f,
            py_float (bound d th) = Ok f /\ past d price f = true /\
            latch d ls = false /\ ev = alert_of c vs price th d) evs.
Proof.
  destruct (evaluate_total c vs price th ls)
    as [(evs0 & ls0 & _ & Hl & Hu & _) | [He' _]]; [|congruence].
  rewrite (evaluate_ok _ _ _ _ _ Hl Hu). intros [= <- _].
  apply Forall_app. split.
  - destruct (crossed_val py_le price (lower th)) eqn:Hc,
             (below ls) eqn:Hb; simpl; constructor; [|constructor].
    apply crossed_val_true in Hc as (f & _ & Hf & Hc).
    exists Below, f. repeat split; assumption.
  - destruct (crossed_val py_ge price (upper th)) eqn:Hc,
             (above ls) eqn:Hb; simpl; constructor; [|constructor].
    apply crossed_val_true in Hc as (f & _ & Hf & Hc).
    exists Above, f. repeat split; assumption.
Qed.

Lemma alert_loop_sound pd vs tm (P : string * msg -> Prop) coins las t :
  (forall c price th d f,
     c ∈ coins -> get_price pd c vs = Some price -> tm !! c = Some th ->
     py_float (bound d th) = Ok f -> past d price f = true ->
     P (alert_of c vs price th d)) ->
  Forall P t ->
  match alert_loop pd vs tm coins las t with
  | Done _ t' => Forall P t'
  | Raised _ _ => True
  end.
Proof.
  revert las t. induction coins as [|c coins IH]; intros las t HP Ht;
    [exact Ht|].
  cbn [alert_loop].
  assert (HP' : forall c0 price th d f,
            c0 ∈ coins -> get_price pd c0 vs = Some price ->
            tm !! c0 = Some th -> py_float (bound d th) = Ok f ->
            past d price f = true -> P (alert_of c0 vs price th d)).
  { intros c0 price th d f Hc0. apply HP. right. exact Hc0. }
  unfold alert_body.
  destruct (get_price pd c vs) as [price|] eqn:Hp; [|apply IH; assumption].
  destruct (tm !! c) as [th|] eqn:Hth; [|apply IH; assumption].
  destruct (evaluate c vs price th (default edge_init (las !! c)))
    as [[evs ls']|e] eqn:He; [|exact I].
  apply IH; [exact HP'|]. apply Forall_app. split; [exact Ht|].
  eapply Forall_impl; [exact (evaluate_sound _ _ _ _ _ _ _ He)|].
  intros ev (d & f & Hf & Hpast & _ & ->).
  apply (HP c price th d f); [left | | | |]; assumption.
Qed.

(** No false alarm.  Every alert a cycle emits is for a selected coin and
    says what the run saw: the coin has a price and a row, the bound of
    the alert's direction converts to a float [f], the price is at or past
    it ([price <= f] for "below", [price >= f] for "above"), and the
    message carries that coin, price, currency and bound. *)
Theorem alerts_are_sound (coins : list string) (vs : string)
    (rows : list row) (pd : gmap string (gmap string num)) (s : session)
    (ev : string * msg) :
  ev ∈ emitted (cycle coins vs rows pd s).2 ->
  ev.1 ∈ coins /\
  exists price th f,
    get_price pd ev.1 vs = Some price /\
    th_map rows !! ev.1 = Some th /\
    py_float (bound (m_dir ev.2) th) = Ok f /\
    past (m_dir ev.2) price f = true /\
    ev = alert_of ev.1 vs price th (m_dir ev.2).
Proof.
  unfold cycle.
  pose proof (alert_loop_sound pd vs (th_map rows)
    (fun ev => ev.1 ∈ coins /\
       exists price th f,
         get_price pd ev.1 vs = Some price /\
         th_map rows !! ev.1 = Some th /\
         py_float (bound (m_dir ev.2) th) = Ok f /\
         past (m_dir ev.2) price f = true /\
         ev = alert_of ev.1 vs price th (m_dir ev.2))
    coins (last_alert_state s) []) as H.
  destruct (alert_loop pd vs (th_map rows) coins (last_alert_state s) [])
    as [las t|e las]; simpl; [|intros Hin; inversion Hin].
  intros Hin.
  assert (Hall : Forall (fun ev => ev.1 ∈ coins /\
            exists price th f,
              get_price pd ev.1 vs = Some price /\
              th_map rows !! ev.1 = Some th /\
              py_float (bound (m_dir ev.2) th) = Ok f /\
              past (m_dir ev.2) price f = true /\
              ev = alert_of ev.1 vs price th (m_dir ev.2)) t).
  { apply H; [|constructor].
    intros c price th d f Hc Hp Hth Hf Hpast. simpl.
    split; [exact Hc|]. exists price, th, f. repeat split; assumption. }
  rewrite Forall_forall in Hall. exact (Hall ev Hin).
Qed.

Lemma alerts_are_sound_witness :
  "bitcoin" ∈ ["bitcoin"] /\
  exists price th f,
    get_price (quote "bitcoin" "usd" (PFloat 95)) "bitcoin" "usd" = Some price /\
    th_map [Row "bitcoin" (CFloat 100) CNone] !! "bitcoin" = Some th /\
    py_float (bound Below th) = Ok f /\
    past Below price f = true /\
    alert_of "bitcoin" "usd" (PFloat 95) (Row "bitcoin" (CFloat 100) CNone)
      Below = alert_of "bitcoin" "usd" price th Below.
Proof.
  apply (alerts_are_sound ["bitcoin"] "usd" [Row "bitcoin" (CFloat 100) CNone]
           (quote "bitcoin" "usd" (PFloat 95)) session_init
           (alert_of "bitcoin" "usd" (PFloat 95)
              (Row "bitcoin" (CFloat 100) CNone) Below)).
  left.
Defined.

(** No missed alarm in a table that converts.  When every row of the
    table converts, a selected coin whose price is at or past a bound of
    its row while its latch for that bound is clear gets the alert of
    that direction in this very cycle. *)
Theorem crossing_is_alerted (coins : list string) (vs : string)
    (rows : list row) (pd : gmap string (gmap string num)) (s : session)
    (c : string) (price : num) (th : row) (d : direction) (f : float) :
  c ∈ coins -> Forall (fun r => row_ok r = true) rows ->
  get_price pd c vs = Some price -> th_map rows !! c = Some th ->
  py_float (bound d th) = Ok f -> past d price f = true ->
  latch d (default edge_init (last_alert_state s !! c)) = false ->
  alert_of c vs price th d ∈ emitted (cycle coins vs rows pd s).2.
Proof.
  intros Hin Hrows Hp Hth Hf Hpast Hla.
  assert (Hok : forall k r, th_map rows !! k = Some r -> row_ok r = true).
  { intros k r Hk. rewrite Forall_forall in Hrows. apply Hrows.
    exact (th_map_lookup _ _ _ Hk). }
  destruct (alert_loop_present pd vs (th_map rows) Hok c price th coins
              (last_alert_state s) [] Hin Hp Hth)
    as (evs & ls' & las' & t' & He & Hloop & _ & Ht').
  unfold cycle. rewrite Hloop. cbn [snd emitted].
  assert (Hev : alert_of c vs price th d ∈ evs).
  { destruct (row_ok_cells th (Hok c th Hth)) as [Hl Hu].
    rewrite (evaluate_ok _ _ _ _ _ Hl Hu) in He. injection He as <- _.
    apply elem_of_app. destruct d; [left | right]; cbn [latch bound past] in *;
      rewrite (crossed_val_float _ _ _ _ Hf), Hpast, Hla; left. }
  assert (Hin' : alert_of c vs price th d ∈ alerts_of c t').
  { rewrite Ht'. exact Hev. }
  apply list_elem_of_filter in Hin'. exact (proj2 Hin').
Qed.

Lemma crossing_is_alerted_witness :
  alert_of "bitcoin" "usd" (PInt 95) (Row "bitcoin" (CStr "100") CNone) Below
    ∈ emitted (cycle ["ethereum"; "bitcoin"] "usd"
                 [Row "bitcoin" (CStr "100") CNone]
                 (quote "bitcoin" "usd" (PInt 95)) session_init).2.
Proof.
  apply (crossing_is_alerted ["ethereum"; "bitcoin"] "usd"
           [Row "bitcoin" (CStr "100") CNone]
           (quote "bitcoin" "usd" (PInt 95)) session_init "bitcoin"
           (PInt 95) (Row "bitcoin" (CStr "100") CNone) Below 100%float);
    try reflexivity; compute_done.
Defined.

(** ** The notifier (lines 276-298) *)

Section NotifierFacts.

Context (now : world -> string) (deliver : world -> mail -> bool).
Implicit Types (cfg : smtp_config) (w : world).

Lemma notify_one_log cfg w c message :
  log_lines (notify_one now deliver cfg w (c, message))
    = log_lines w ++ [LogLine (now w) message].
Proof.
  unfold notify_one.
  destruct (all_configured cfg); [destruct (deliver _ _)|]; reflexivity.
Qed.

Lemma notify_loop_log cfg alerts w :
  exists new,
    log_lines (foldl (notify_one now deliver cfg) w alerts)
      = log_lines w ++ new /\
    l_msg <$> new = snd <$> alerts.
Proof.
  revert w. induction alerts as [|[c message] alerts IH]; intros w.
  - exists []. rewrite app_nil_r. split; reflexivity.
  - cbn [foldl]. destruct (IH (notify_one now deliver cfg w (c, message)))
      as (new & Hlog & Hmsg).
    exists (LogLine (now w) message :: new).
    rewrite Hlog, notify_one_log, <- app_assoc. split; [reflexivity|].
    rewrite !fmap_cons, Hmsg. reflexivity.
Qed.

Lemma notify_log cfg alerts w :
  exists new,
    log_lines (notify now deliver cfg alerts w) = log_lines w ++ new /\
    l_msg <$> new = snd <$> alerts.
Proof.
  unfold notify. destruct alerts as [|a alerts].
  - exists []. rewrite app_nil_r. split; reflexivity.
  - apply (notify_loop_log cfg (a :: alerts)
             (World (log_file w) (outbox w)
                    (notices w ++ [Warning (snd <$> a :: alerts)]))).
Qed.

(** Every alert is logged.  Whatever the mail settings are and whatever
    becomes of the mails, the notifier leaves the lines of the log in
    place and adds one line per alert, in the order of the alerts, each
    with the message of its alert. *)
Theorem notify_logs_every_alert cfg (alerts : list (string * msg)) w :
  log_lines w `prefix_of` log_lines (notify now deliver cfg alerts w) /\
  l_msg <$> log_lines (notify now deliver cfg alerts w)
    = (l_msg <$> log_lines w) ++ (snd <$> alerts).
Proof.
  destruct (notify_log cfg alerts w) as (new & Hlog & Hmsg).
  rewrite Hlog, fmap_app, Hmsg. split; [apply prefix_app_r|]; reflexivity.
Qed.

Lemma notify_one_unconfigured cfg w a :
  all_configured cfg = false ->
  outbox (notify_one now deliver cfg w a) = outbox w.
Proof. intros H. destruct a as [c m]. unfold notify_one. rewrite H. reflexivity. Qed.

Lemma notify_loop_unconfigured cfg alerts w :
  all_configured cfg = false ->
  outbox (foldl (notify_one now deliver cfg) w alerts) = outbox w.
Proof.
  intros H. revert w. induction alerts as [|a alerts IH]; intros w;
    [reflexivity|].
  cbn [foldl]. rewrite IH. apply notify_one_unconfigured. exact H.
Qed.

Lemma notify_unconfigured cfg alerts w :
  all_configured cfg = false ->
  outbox (notify now deliver cfg alerts w) = outbox w.
Proof.
  intros H. unfold notify. destruct alerts as [|a alerts]; [reflexivity|].
  rewrite (notify_loop_unconfigured cfg (a :: alerts) _ H). reflexivity.
Qed.

(** No mail without complete settings.  When one of server, port, sender,
    password and receiver is empty (or the port is 0), the notifier hands
    no mail to the transport, for any alerts, and still logs them all. *)
Theorem incomplete_settings_no_mail cfg (alerts : list (string * msg)) w :
  all_configured cfg = false ->
  outbox (notify now deliver cfg alerts w) = outbox w /\
  l_msg <$> log_lines (notify now deliver cfg alerts w)
    = (l_msg <$> log_lines w) ++ (snd <$> alerts).
Proof.
  intros H. split; [apply notify_unconfigured; exact H|].
  destruct (notify_log cfg alerts w) as (new & Hlog & Hmsg).
  rewrite Hlog, fmap_app, Hmsg. reflexivity.
Qed.



Lemma notify_one_file cfg w a :
  log_file (notify_one now deliver cfg w a)
    = Some (log_lines (notify_one now deliver cfg w a)).
Proof.
  destruct a as [c m]. unfold notify_one.
  destruct (all_configured cfg); [destruct (deliver _ _)|]; reflexivity.
Qed.

Lemma notify_loop_file cfg alerts w :
  log_file w = Some (log_lines w) ->
  log_file (foldl (notify_one now deliver cfg) w alerts)
    = Some (log_lines (foldl (notify_one now deliver cfg) w alerts)).
Proof.
  revert w. induction alerts as [|a alerts IH]; intros w H; [exact H|].
  cbn [foldl]. apply IH. apply notify_one_file.
Qed.

(** The newest alert is on show.  After the notifier has logged at least
    one alert, the viewer shows log lines, at most 50 of them and the last
    ones of the file, and the last line shown is that of the last alert. *)
Theorem newest_alert_is_shown cfg (alerts : list (string * msg)) w :
  alerts <> [] ->
  exists tail,
    log_view (log_file (notify now deliver cfg alerts w)) = Code tail /\
    tail = last_n 50 (log_lines (notify now deliver cfg alerts w)) /\
    (length tail <= 50)%nat /\
    l_msg <$> last tail = snd <$> last alerts.
Proof.
  intros Hne.
  destruct (notify_log cfg alerts w) as (new & Hlog & Hmsg).
  assert (Hfile : log_file (notify now deliver cfg alerts w)
                  = Some (log_lines (notify now deliver cfg alerts w))).
  { unfold notify. destruct alerts as [|a alerts]; [congruence|].
    cbn [foldl]. apply notify_loop_file, notify_one_file. }
  destruct (exists_last Hne) as (init & [c m] & ->).
  rewrite fmap_app in Hmsg. cbn [fmap list_fmap] in Hmsg.
  destruct (exists_last (l := new)) as (new0 & line & ->).
  { intros ->. apply (f_equal length) in Hmsg.
    rewrite length_app in Hmsg. simpl in Hmsg. lia. }
  rewrite fmap_app in Hmsg. apply app_inj_tail in Hmsg as [_ Hline].
  rewrite Hfile, Hlog, app_assoc. unfold log_view, last_n.
  set (lines := log_lines w ++ new0).
  assert (Hd : drop (length (lines ++ [line]) - 50) (lines ++ [line])
               = drop (length (lines ++ [line]) - 50) lines ++ [line]).
  { apply drop_app_le. rewrite length_app. simpl. lia. }
  rewrite Hd.
  destruct (drop (length (lines ++ [line]) - 50) lines ++ [line])
    as [|l0 tail0] eqn:Ht.
  { destruct (drop _ lines); discriminate. }
  exists (l0 :: tail0). split; [reflexivity|]. rewrite <- Ht.
  split; [reflexivity|]. split.
  - rewrite length_app, length_drop, length_app. simpl. lia.
  - rewrite !last_snoc. simpl. rewrite Hline. reflexivity.
Qed.

End NotifierFacts.

Lemma incomplete_settings_no_mail_witness :
  outbox (notify (fun _ => "2024-01-01 00:00:00") (fun _ _ => true)
            (Smtp "smtp.gmail.com" 465 "" "" "")
            [alert_of "bitcoin" "usd" (PFloat 95)
               (Row "bitcoin" (CFloat 100) CNone) Below]
            (World None [] [])) = [] /\
  l_msg <$> log_lines
    (notify (fun _ => "2024-01-01 00:00:00") (fun _ _ => true)
       (Smtp "smtp.gmail.com" 465 "" "" "")
       [alert_of "bitcoin" "usd" (PFloat 95)
          (Row "bitcoin" (CFloat 100) CNone) Below]
       (World None [] []))
  = [] ++ [Msg "bitcoin" (PFloat 95) "USD" Below (CFloat 100)].
Proof.
  apply (incomplete_settings_no_mail (fun _ => "2024-01-01 00:00:00")
           (fun _ _ => true) (Smtp "smtp.gmail.com" 465 "" "" "")
           [alert_of "bitcoin" "usd" (PFloat 95)
              (Row "bitcoin" (CFloat 100) CNone) Below]
           (World None [] [])).
  reflexivity.
Defined.


Lemma newest_alert_is_shown_witness :
  exists tail,
    log_view (log_file
      (notify (fun _ => "2024-01-01 00:00:00") (fun _ _ => false)
         (Smtp "smtp.gmail.com" 465 "a@x.org" "secret" "b@x.org")
         [alert_of "bitcoin" "usd" (PFloat 95)
            (Row "bitcoin" (CFloat 100) CNone) Below]
         (World None [] []))) = Code tail /\
    tail = last_n 50 (log_lines
      (notify (fun _ => "2024-01-01 00:00:00") (fun _ _ => false)
         (Smtp "smtp.gmail.com" 465 "a@x.org" "secret" "b@x.org")
         [alert_of "bitcoin" "usd" (PFloat 95)
            (Row "bitcoin" (CFloat 100) CNone) Below]
         (World None [] []))) /\
    (length tail <= 50)%nat /\
    l_msg <$> last tail
      = snd <$> last [alert_of "bitcoin" "usd" (PFloat 95)
                        (Row "bitcoin" (CFloat 100) CNone) Below].
Proof.
  apply (newest_alert_is_shown (fun _ => "2024-01-01 00:00:00")
           (fun _ _ => false)
           (Smtp "smtp.gmail.com" 465 "a@x.org" "secret" "b@x.org")
           [alert_of "bitcoin" "usd" (PFloat 95)
              (Row "bitcoin" (CFloat 100) CNone) Below]
           (World None [] [])).
  discriminate.
Defined.

(** ** Mail settings from the environment (lines 76-78, 106-111) *)

Lemma env_config_incomplete environ port k :
  k ∈ ["EMAIL_SENDER"; "EMAIL_PASSWORD"; "EMAIL_RECEIVER"]%string ->
  environ !! k = None \/ environ !! k = Some EmptyString ->
  all_configured (env_config environ port) = false.
Proof.
  intros Hk Hv.
  assert (Hget : get_env_or_default environ k "" = EmptyString).
  { unfold get_env_or_default. destruct Hv as [-> | ->]; reflexivity. }
  unfold all_configured, env_config. cbn [smtp_server smtp_port email_sender
    email_password email_receiver].
  repeat (apply elem_of_cons in Hk as [->|Hk]);
    [| | |inversion Hk]; rewrite Hget; cbn [str_truth];
    rewrite ?andb_false_r; reflexivity.
Qed.

(** Without credentials in the environment no mail is attempted.  When
    one of EMAIL_SENDER, EMAIL_PASSWORD and EMAIL_RECEIVER is not set, or
    is set to the empty string, the settings read from the environment
    make the notifier hand over no mail, whatever server and port are;
    the alerts are logged all the same. *)
Theorem unset_credentials_no_mail (now : world -> string)
    (deliver : world -> mail -> bool) (environ : gmap string string)
    (port : Z) (k : string) (alerts : list (string * msg)) (w : world) :
  k ∈ ["EMAIL_SENDER"; "EMAIL_PASSWORD"; "EMAIL_RECEIVER"]%string ->
  environ !! k = None \/ environ !! k = Some EmptyString ->
  outbox (notify now deliver (env_config environ port) alerts w) = outbox w /\
  l_msg <$> log_lines (notify now deliver (env_config environ port) alerts w)
    = (l_msg <$> log_lines w) ++ (snd <$> alerts).
Proof.
  intros Hk Hv. pose proof (env_config_incomplete environ port k Hk Hv) as H.
  split; [apply notify_unconfigured; exact H|].
  destruct (notify_log now deliver (env_config environ port) alerts w)
    as (new & Hlog & Hmsg).
  rewrite Hlog, fmap_app, Hmsg. reflexivity.
Qed.

Lemma unset_credentials_no_mail_witness :
  outbox (notify (fun _ => "2024-01-01 00:00:00") (fun _ _ => true)
            (env_config {[ "EMAIL_SENDER" := "a@x.org";
                           "EMAIL_RECEIVER" := "b@x.org" ]} 465)
            [alert_of "bitcoin" "usd" (PFloat 95)
               (Row "bitcoin" (CFloat 100) CNone) Below]
            (World None [] [])) = [] /\
  l_msg <$> log_lines
    (notify (fun _ => "2024-01-01 00:00:00") (fun _ _ => true)
       (env_config {[ "EMAIL_SENDER" := "a@x.org";
                      "EMAIL_RECEIVER" := "b@x.org" ]} 465)
       [alert_of "bitcoin" "usd" (PFloat 95)
          (Row "bitcoin" (CFloat 100) CNone) Below]
       (World None [] []))
  = [] ++ [Msg "bitcoin" (PFloat 95) "USD" Below (CFloat 100)].
Proof.
  apply (unset_credentials_no_mail (fun _ => "2024-01-01 00:00:00")
           (fun _ _ => true)
           {[ "EMAIL_SENDER" := "a@x.org"; "EMAIL_RECEIVER" := "b@x.org" ]}
           465 "EMAIL_PASSWORD"
           [alert_of "bitcoin" "usd" (PFloat 95)
              (Row "bitcoin" (CFloat 100) CNone) Below]
           (World None [] []));
    [compute_done | left; reflexivity].
Defined.

(** ** Entries of the history and the charts (lines 194-199, 222-231) *)

Lemma run_appends_lookup_none c appends h :
  run_appends h appends !! c = None <->
  h !! c = None /\ prices_of c appends = [].
Proof.
  revert h. induction appends as [|[k p] appends IH]; intros h.
  - unfold run_appends, prices_of. simpl. tauto.
  - change (run_appends h ((k, p) :: appends))
      with (run_appends (append_price h k p) appends).
    rewrite IH. destruct (decide (k = c)) as [->|Hne]; [destruct p as [p|]|].
    + rewrite prices_of_same, append_price_some, lookup_insert_eq.
      split; intros [H1 H2]; discriminate.
    + rewrite prices_of_none. reflexivity.
    + rewrite (prices_of_other _ _ _ _ Hne), (append_price_other _ _ _ _ Hne).
      reflexivity.
Qed.

(** An entry of the history is made by the first price and by nothing
    else: from the empty history of a fresh session, a coin has no entry
    exactly when no present price has been appended for it, and the
    buffer of a coin that has an entry is never empty. *)
Theorem history_entry_iff_price (c : string)
    (appends : list (string * option num)) :
  (run_appends ∅ appends !! c = None <-> prices_of c appends = []) /\
  run_appends ∅ appends !! c <> Some [].
Proof.
  assert (H : run_appends ∅ appends !! c = None <-> prices_of c appends = []).
  { rewrite run_appends_lookup_none, lookup_empty. tauto. }
  split; [exact H|]. intros Hs.
  assert (Hw : get_hist (run_appends ∅ appends) c
               = last_n HISTORY_LEN (prices_of c appends)).
  { rewrite run_appends_window; [reflexivity|].
    unfold get_hist. rewrite lookup_empty. simpl. lia. }
  unfold get_hist in Hw. rewrite Hs in Hw. simpl in Hw.
  apply (f_equal length) in Hw. rewrite last_n_length in Hw. simpl in Hw.
  destruct (prices_of c appends) eqn:Hp.
  - rewrite (proj2 H eq_refl) in Hs. discriminate.
  - simpl in Hw. unfold HISTORY_LEN in Hw. lia.
Qed.

(** A chart is drawn for a coin exactly when it is selected and at least
    two prices have been recorded for it; the chart then shows the last
    prices recorded, at least 2 and at most 300 of them. *)
Theorem charts_window (coins : list string)
    (appends : list (string * option num)) (c : string) (hist : list num) :
  ((c, hist) ∈ charts coins (run_appends ∅ appends) <->
   c ∈ coins /\ (2 <= length (prices_of c appends))%nat /\
   hist = last_n HISTORY_LEN (prices_of c appends)) /\
  ((c, hist) ∈ charts coins (run_appends ∅ appends) ->
   (2 <= length hist <= 300)%nat).
Proof.
  assert (Hw : forall k, get_hist (run_appends ∅ appends) k
                         = last_n HISTORY_LEN (prices_of k appends)).
  { intros k. rewrite run_appends_window; [reflexivity|].
    unfold get_hist. rewrite lookup_empty. simpl. lia. }
  assert (Hiff : (c, hist) ∈ charts coins (run_appends ∅ appends) <->
                 c ∈ coins /\ (2 <= length (prices_of c appends))%nat /\
                 hist = last_n HISTORY_LEN (prices_of c appends)).
  { unfold charts. rewrite list_elem_of_omap. split.
    - intros (k & Hk & Hf). cbn zeta in Hf. rewrite Hw in Hf.
      destruct (length (last_n HISTORY_LEN (prices_of k appends)) <? 2)%nat
        eqn:E; [discriminate|].
      injection Hf as -> <-. apply Nat.ltb_ge in E.
      rewrite last_n_length in E. repeat split; [exact Hk | lia].
    - intros (Hc & Hlen & ->). exists c. split; [exact Hc|].
      cbn zeta. rewrite Hw.
      destruct (length (last_n HISTORY_LEN (prices_of c appends)) <? 2)%nat
        eqn:E; [|reflexivity].
      apply Nat.ltb_lt in E. rewrite last_n_length in E.
      unfold HISTORY_LEN in E. lia. }
  split; [exact Hiff|]. intros Hin. apply Hiff in Hin as (_ & Hlen & ->).
  rewrite last_n_length. unfold HISTORY_LEN. lia.
Qed.

(** ** When the script stops with an exception (lines 255-256) *)

Lemma alert_body_cases pd vs tm c las t :
  (alert_body pd vs tm c las t = Raised ValueError las /\
   exists price th, get_price pd c vs = Some price /\ tm !! c = Some th /\
                    row_ok th = false) \/
  ((exists las' t', alert_body pd vs tm c las t = Done las' t') /\
   forall price th, get_price pd c vs = Some price -> tm !! c = Some th ->
                    row_ok th = true).
Proof.
  unfold alert_body.
  destruct (get_price pd c vs) as [price|] eqn:Hp;
    [|right; split; [eexists _, _; reflexivity | discriminate]].
  destruct (tm !! c) as [th|] eqn:Ht;
    [|right; split; [eexists _, _; reflexivity | discriminate]].
  destruct (evaluate_total c vs price th (default edge_init (las !! c)))
    as [(evs & ls' & He & Hl & Hu & _) | [He Hbad]]; rewrite He.
  - right. split; [eexists _, _; reflexivity|].
    intros ? ? [= <-] [= <-]. unfold row_ok. rewrite Hl, Hu. reflexivity.
  - left. split; [reflexivity|]. exists price, th. repeat split. exact Hbad.
Qed.

Lemma alert_loop_raises_iff pd vs tm coins las t :
  (exists e las', alert_loop pd vs tm coins las t = Raised e las') <->
  exists c price th,
    c ∈ coins /\ get_price pd c vs = Some price /\ tm !! c = Some th /\
    row_ok th = false.
Proof.
  revert las t. induction coins as [|c coins IH]; intros las t.
  - split; [intros (e & las' & H); discriminate|].
    intros (c & _ & _ & Hc & _). inversion Hc.
  - cbn [alert_loop].
    destruct (alert_body_cases pd vs tm c las t)
      as [[Hb (price & th & Hp & Ht & Hbad)] | [(las1 & t1 & Hb) Hgood]];
      rewrite Hb.
    + split; [|intros _; eexists _, _; reflexivity].
      intros _. exists c, price, th. repeat split; [left | | |]; assumption.
    + rewrite IH. split.
      * intros (c' & price & th & Hc' & H). exists c', price, th.
        split; [right; exact Hc' | exact H].
      * intros (c' & price & th & Hc' & Hp & Ht & Hbad).
        apply elem_of_cons in Hc' as [->|Hc'].
        { rewrite (Hgood price th Hp Ht) in Hbad. discriminate. }
        exists c', price, th. repeat split; assumption.
Qed.

Lemma alert_loop_raised_value pd vs tm coins las t e las' :
  alert_loop pd vs tm coins las t = Raised e las' -> e = ValueError.
Proof.
  revert las t. induction coins as [|c coins IH]; intros las t; [discriminate|].
  cbn [alert_loop].
  destruct (alert_body_cases pd vs tm c las t)
    as [[Hb _] | [(las1 & t1 & Hb) _]]; rewrite Hb.
  - intros [= <- _]. reflexivity.
  - apply IH.
Qed.

(** The script stops in the alert loop exactly when some selected coin
    has a price and a row one of whose bounds is text that [float]
    rejects; the exception is then [ValueError].  Rows of coins that are
    not selected or have no price do no harm. *)
Theorem cycle_raises_iff (coins : list string) (vs : string)
    (rows : list row) (pd : gmap string (gmap string num)) (s : session) :
  ((cycle coins vs rows pd s).2 = Raise ValueError <->
   exists c price th,
     c ∈ coins /\ get_price pd c vs = Some price /\
     th_map rows !! c = Some th /\ row_ok th = false) /\
  (forall e, (cycle coins vs rows pd s).2 = Raise e -> e = ValueError).
Proof.
  pose proof (alert_loop_raises_iff pd vs (th_map rows) coins
                (last_alert_state s) []) as Hiff.
  pose proof (alert_loop_raised_value pd vs (th_map rows) coins
                (last_alert_state s) []) as Hval.
  unfold cycle.
  destruct (alert_loop pd vs (th_map rows) coins (last_alert_state s) [])
    as [las t|e las]; cbn [snd].
  - split; [|discriminate]. rewrite <- Hiff.
    split; [discriminate | intros (e & las' & H); discriminate].
  - pose proof (Hval e las eq_refl) as ->.
    split; [|intros e [= <-]; reflexivity].
    rewrite <- Hiff. split; [intros _; eexists _, _; reflexivity | reflexivity].
Qed.

(** The edge-triggered pattern at a concrete session: bound 100, prices
    100, 95, 101, 99 over four cycles. *)
Lemma edge_triggered_cycles_witness :
  (fun out => count_dir Below (alerts_of "bitcoin" (emitted out))) <$>
    (cycles ["bitcoin"] "usd"
       ((fun pd => ([Row "bitcoin" (CFloat 100) CNone], pd)) <$>
        [quote "bitcoin" "usd" (PFloat 100); quote "bitcoin" "usd" (PFloat 95);
         quote "bitcoin" "usd" (PFloat 101); quote "bitcoin" "usd" (PFloat 99)])
       session_init).2
  = [1%nat] ++ replicate (length [PFloat 95]) 0%nat ++
    replicate (length [PFloat 101]) 0%nat ++ [1%nat].
Proof.
  apply (edge_triggered_cycles Below ["bitcoin"] "usd"
           [Row "bitcoin" (CFloat 100) CNone] "bitcoin"
           (Row "bitcoin" (CFloat 100) CNone) session_init 100%float
           (PFloat 100) [PFloat 95] (PFloat 101) [] (PFloat 99)
           [quote "bitcoin" "usd" (PFloat 100);
            quote "bitcoin" "usd" (PFloat 95);
            quote "bitcoin" "usd" (PFloat 101);
            quote "bitcoin" "usd" (PFloat 99)]);
    try reflexivity; try compute_done; repeat constructor.
Defined.
